(** * Shape utilities of [pymc/distributions/shape_utils.py]

    A shallow embedding of the shape-broadcasting and size-resolution
    functions, and the properties the specification states about them. *)

From Stdlib Require Import ZArith QArith Lia.
From stdpp Require Import base option list strings gmap.

Local Open Scope Z_scope.

(** ** Python values and exceptions *)

(** Elements of a user-provided [shape] or [size]: a Python int, a scalar
    [TensorVariable] (named), or [Ellipsis]. *)
Inductive shape_elem : Type :=
  | SInt (z : Z)
  | SVar (name : string)
  | SEllipsis.

(** Elements of a [dims] tuple: a dimension name, [None] or [Ellipsis]. *)
Inductive dim_elem : Type :=
  | DName (name : string)
  | DNone
  | DEllipsis.

Global Instance shape_elem_eq_dec : EqDecision shape_elem.
Proof. solve_decision. Defined.

Global Instance dim_elem_eq_dec : EqDecision dim_elem.
Proof. solve_decision. Defined.

Global Instance dim_elem_countable : Countable dim_elem.
Proof.
  refine (inj_countable'
    (fun d => match d with
              | DName s => inl s
              | DNone => inr true
              | DEllipsis => inr false
              end)
    (fun x => match x with
              | inl s => DName s
              | inr true => DNone
              | inr false => DEllipsis
              end) _).
  intros []; reflexivity.
Defined.

(** The messages of the [ValueError]s the module raises. *)
Inductive value_error : Type :=
  | DoNotBroadcast      (* "Supplied shapes {} do not broadcast together" *)
  | CannotBroadcast     (* "Cannot broadcast provided shapes {} given size: {}" *)
  | DimsBadType         (* "The `dims` parameter must be a tuple, str or list." *)
  | DimsEllipsis        (* "Ellipsis in `dims` may only appear in the last position." *)
  | ShapeBadType        (* "The `shape` parameter must be a tuple, TensorVariable, int or list." *)
  | ShapeEllipsis       (* "Ellipsis in `shape` may only appear in the last position." *)
  | SizeBadType         (* "The `size` parameter must be a tuple, TensorVariable, int or list." *)
  | SizeEllipsis.       (* "The `size` parameter cannot contain an Ellipsis." *)

Inductive exn : Type :=
  | TypeError
  | ValueError (msg : value_error)
  | KeyError (unknown : gset dim_elem)
  | ShapeError (actual : Z) (expected : option Z).

(** A call either returns a value or raises. *)
Inductive result (A : Type) : Type :=
  | Ok (a : A)
  | Raise (e : exn).
Arguments Ok {A} a.
Arguments Raise {A} e.

Definition bind {A B} (r : result A) (k : A -> result B) : result B :=
  match r with
  | Ok a => k a
  | Raise e => Raise e
  end.

Notation "x <- r ;; k" := (bind r (fun x => k))
  (at level 100, r at next level, right associativity).

(** [[f(a) for a in l]] where [f] may raise: the first exception wins. *)
Fixpoint mapM {A B} (f : A -> result B) (l : list A) : result (list B) :=
  match l with
  | [] => Ok []
  | a :: l' => b <- f a ;; bs <- mapM f l' ;; Ok (b :: bs)
  end.

(** ** Python slices *)

(** [l[:n]]: a negative [n] counts from the end. *)
Definition slice_to {A} (l : list A) (n : Z) : list A :=
  if 0 <=? n then take (Z.to_nat n) l
  else take (Z.to_nat (Z.of_nat (length l) + n)) l.

(** [l[n:]] for [0 <= n]. *)
Definition slice_from {A} (l : list A) (n : nat) : list A := drop n l.

(** [l[-k:]] for [0 < k]: the last [k] elements (all of [l] when it is shorter). *)
Definition slice_last {A} (l : list A) (k : nat) : list A :=
  drop (length l - k)%nat l.

(** ** [to_tuple] and [_check_shape_type] *)

(** Entries of the array that [np.atleast_1d(shape)] makes of the argument
    of [_check_shape_type] (line 68): an integer, a finite float (by its
    rational value), a value [int()] rejects or that compares unequal to
    its [int()] ([None], a [str], [nan], ...), or a nested array row
    ([ndim > 0]).

    The conversion itself is NumPy's and is not modelled: it gives all
    entries one dtype, so an int next to a float, or next to an int of
    another range, reaches the loop as the float it was rounded to. A
    tuple of ints that all fit int64, as the shape of an array is, is
    kept as it is. *)
Inductive raw_entry : Type :=
  | RInt (z : Z)
  | RFloat (q : Q)
  | RNonNumeric (repr : string)
  | RNested (row : list Z).

(** The body of the [for s in shape] loop: [o = int(s)], rejected when
    [o != s]. [int] truncates a float toward zero. *)
Definition check_entry (s : raw_entry) : option Z :=
  match s with
  | RInt z => Some z
  | RFloat q =>
      let o := Z.quot (Qnum q) (Zpos (Qden q)) in
      if Qeq_bool (inject_Z o) q then Some o else None
  | RNonNumeric _ => None
  | RNested _ => None
  end.

Fixpoint check_entries (shape : list raw_entry) : option (list Z) :=
  match shape with
  | [] => Some []
  | s :: rest =>
      match check_entry s with
      | None => None
      | Some o =>
          match check_entries rest with
          | None => None
          | Some out => Some (o :: out)
          end
      end
  end.

(** [_check_shape_type] on the array [shape = np.atleast_1d(shape)]: the
    loop over its entries; every exception inside is turned into a
    [TypeError]. *)
Definition _check_shape_type (shape : list raw_entry) : result (list Z) :=
  match check_entries shape with
  | Some out => Ok out
  | None => Raise TypeError
  end.

(** The integer array with the entries [s]: what [np.atleast_1d] makes of
    a tuple [s] of ints that fit int64. *)
Definition ints (s : list Z) : list raw_entry := map RInt s.

(** The shape of an array: no dimension is negative, and each fits the
    signed 64-bit integers NumPy keeps them in. *)
Definition array_shape (s : list Z) : bool :=
  forallb (fun d => (0 <=? d) && (d <? 2 ^ 63)) s.

(** [_check_shape_type] on the argument itself, with NumPy's
    [np.atleast_1d] as a parameter. *)
Definition check_shape_type_of {Arg} (atleast_1d : Arg -> list raw_entry)
    (shape : Arg) : result (list Z) :=
  _check_shape_type (atleast_1d shape).

(** The [size] argument of the sampling helpers. *)
Inductive size_arg : Type :=
  | SizeNone
  | SizeInt (n : Z)
  | SizeSeq (s : list Z).

Definition to_tuple (shape : size_arg) : list Z :=
  match shape with
  | SizeNone => []
  | SizeInt n => [n]
  | SizeSeq s => s
  end.

(** ** [shapes_broadcasting] *)

(** [j if i == 1 else i if j == 1 else i if i == j else 0] *)
Definition bcast_dim (i j : Z) : Z :=
  if i =? 1 then j else if j =? 1 then i else if i =? j then i else 0.

(** [[f(i, j) for i, j in zip(x, y)]] *)
Fixpoint zip_with_dims (x y : list Z) : list Z :=
  match x, y with
  | i :: x', j :: y' => bcast_dim i j :: zip_with_dims x' y'
  | _, _ => []
  end.

(** One iteration of the loop, up to the [all(x)] test: swap so that [x] is
    the longer list, then overwrite its last [len(y)] entries. *)
Definition bcast_step (x y : list Z) : list Z :=
  let '(x, y) := if (length x <? length y)%nat then (y, x) else (x, y) in
  if (0 <? length y)%nat then
    take (length x - length y) x ++ zip_with_dims (slice_last x (length y)) y
  else x.

(** [all(x)]: no entry is zero. *)
Definition all_nonzero (x : list Z) : bool := forallb (fun d => negb (d =? 0)) x.

(** The [for arg in args[1:]] loop. [None] is the Python [None] returned
    when the shapes do not broadcast and [raise_exception] is false. *)
Fixpoint bcast_loop (raise_exception : bool) (x : list Z)
    (args : list (list raw_entry)) : result (option (list Z)) :=
  match args with
  | [] => Ok (Some x)
  | arg :: rest =>
      y <- _check_shape_type arg ;;
      let x' := bcast_step x y in
      if all_nonzero x' then bcast_loop raise_exception x' rest
      else if raise_exception then Raise (ValueError DoNotBroadcast)
      else Ok None
  end.

Definition shapes_broadcasting (args : list (list raw_entry))
    (raise_exception : bool) : result (option (list Z)) :=
  match args with
  | [] => Ok (Some [])
  | arg0 :: rest =>
      x <- _check_shape_type arg0 ;;
      bcast_loop raise_exception x rest
  end.

(** ** [broadcast_dist_samples_shape] *)

(** [_size == s[: min([len(_size), len(s)])]] *)
Definition has_size_prefix (_size s : list Z) : bool :=
  bool_decide (_size = take (length _size `min` length s)%nat s).

(** [_size == shape[: len(_size)]] *)
Definition starts_with_size (_size shape : list Z) : bool :=
  bool_decide (_size = take (length _size) shape).

Definition strip_size (_size s : list Z) : list Z :=
  if has_size_prefix _size s then slice_from s (length _size) else s.

(** The [p_shape] of the second loop; [(1,) * n] is empty for [n <= 0]. *)
Definition pad_shape (_size broadcast_shape shape sp_shape : list Z) : list Z :=
  if starts_with_size _size shape then
    take (length _size) shape
      ++ replicate (Z.to_nat (Z.of_nat (length broadcast_shape)
                              - Z.of_nat (length sp_shape))) 1
      ++ slice_from shape (length _size)
  else shape.

(** [[f(a, b) for a, b in zip(l1, l2)]] *)
Fixpoint zip_map {A B C} (f : A -> B -> C) (l1 : list A) (l2 : list B) : list C :=
  match l1, l2 with
  | a :: l1', b :: l2' => f a b :: zip_map f l1' l2'
  | _, _ => []
  end.

Definition broadcast_dist_samples_shape (shapes : list (list raw_entry))
    (size : size_arg) : result (list Z) :=
  match size with
  | SizeNone =>
      broadcasted_shape <- shapes_broadcasting shapes false ;;
      match broadcasted_shape with
      | None => Raise (ValueError CannotBroadcast)
      | Some s => Ok s
      end
  | _ =>
      shapes <- mapM _check_shape_type shapes ;;
      let _size := to_tuple size in
      let sp_shapes := map (strip_size _size) shapes in
      match shapes_broadcasting (map ints sp_shapes) true with
      | Raise (ValueError _) => Raise (ValueError CannotBroadcast)
      | Raise e => Raise e
      | Ok None => Raise TypeError (* len(None); unreachable, see below *)
      | Ok (Some broadcast_shape) =>
          let broadcastable_shapes :=
            zip_map (pad_shape _size broadcast_shape) shapes sp_shapes in
          r <- shapes_broadcasting (map ints broadcastable_shapes) true ;;
          match r with
          | Some s => Ok s
          | None => Raise TypeError (* unreachable: raise_exception is true *)
          end
      end
  end.

(** ** [convert_dims], [convert_shape], [convert_size] *)

(** What a caller may pass as [dims]. *)
Inductive dims_arg : Type :=
  | DimsNone
  | DimsStr (name : string)
  | DimsSeq (dims : list dim_elem)      (* a list or a tuple *)
  | DimsOther.                          (* any other type *)

(** What a caller may pass as [shape] or [size]. *)
Inductive shape_arg : Type :=
  | ShapeNone
  | ShapeInt (n : Z)
  | ShapeScalarVar (name : string)      (* a TensorVariable with ndim == 0 *)
  | ShapeSeq (shape : list shape_elem)  (* a list or a tuple *)
  | ShapeOther.                         (* any other type *)

(** [any(d == Ellipsis for d in l)] *)
Definition any_ellipsis_dims (l : list dim_elem) : bool :=
  existsb (fun d => bool_decide (d = DEllipsis)) l.

Definition any_ellipsis_shape (l : list shape_elem) : bool :=
  existsb (fun s => bool_decide (s = SEllipsis)) l.

Definition convert_dims (dims : dims_arg) : result (option (list dim_elem)) :=
  match dims with
  | DimsNone => Ok None
  | _ =>
      dims <- match dims with
              | DimsStr name => Ok [DName name]
              | DimsSeq l => Ok l
              | _ => Raise (ValueError DimsBadType)
              end ;;
      if any_ellipsis_dims (slice_to dims (-1))
      then Raise (ValueError DimsEllipsis)
      else Ok (Some dims)
  end.

Definition convert_shape (shape : shape_arg) : result (option (list shape_elem)) :=
  match shape with
  | ShapeNone => Ok None
  | _ =>
      shape <- match shape with
               | ShapeInt n => Ok [SInt n]
               | ShapeScalarVar name => Ok [SVar name]
               | ShapeSeq l => Ok l
               | _ => Raise (ValueError ShapeBadType)
               end ;;
      if any_ellipsis_shape (slice_to shape (-1))
      then Raise (ValueError ShapeEllipsis)
      else Ok (Some shape)
  end.

Definition convert_size (size : shape_arg) : result (option (list shape_elem)) :=
  match size with
  | ShapeNone => Ok None
  | _ =>
      size <- match size with
              | ShapeInt n => Ok [SInt n]
              | ShapeScalarVar name => Ok [SVar name]
              | ShapeSeq l => Ok l
              | _ => Raise (ValueError SizeBadType)
              end ;;
      if bool_decide (SEllipsis ∈ size)
      then Raise (ValueError SizeEllipsis)
      else Ok (Some size)
  end.

(** ** [resize_from_dims] *)

(** [model.dim_lengths[dname]]; a key that is not in the dict raises. *)
Definition dim_length_of {L} (dim_lengths : gmap string L) (dname : dim_elem) : result L :=
  match dname with
  | DName name =>
      match dim_lengths !! name with
      | Some len => Ok len
      | None => Raise (KeyError {[dname]})
      end
  | _ => Raise (KeyError {[dname]})
  end.

(** [set(model.dim_lengths)]: the keys, as values that [dims] entries are
    compared with. *)
Definition registry_keys {L} (dim_lengths : gmap string L) : gset dim_elem :=
  set_map DName (dom dim_lengths).

Definition resize_from_dims {L} (dims : list dim_elem) (ndim_implied : Z)
    (dim_lengths : gmap string L) : result (Z * list L * list dim_elem) :=
  let dims :=
    if bool_decide (DEllipsis ∈ dims)
    then slice_to dims (-1) ++ replicate (Z.to_nat ndim_implied) DNone
    else dims in
  let ndim_resize := Z.of_nat (length dims) - ndim_implied in
  let unknowndim_resize_dims : gset dim_elem :=
    list_to_set (slice_to dims ndim_resize) ∖ registry_keys dim_lengths in
  if bool_decide (unknowndim_resize_dims = ∅) then
    resize_shape <- mapM (dim_length_of dim_lengths) (slice_to dims ndim_resize) ;;
    Ok (ndim_resize, resize_shape, dims)
  else Raise (KeyError unknowndim_resize_dims).

(** ** [find_size] *)

Record find_size_result : Type := FindSize {
  create_size : option (list shape_elem);
  ndim_expected : option Z;
  ndim_batch : option Z;
  ndim_supp : option Z
}.

(** [a - b] and [a + b] where [b] may be [None] ([ndim_supp] defaults to it). *)
Definition int_sub_opt (a : Z) (b : option Z) : result Z :=
  match b with
  | Some b => Ok (a - b)
  | None => Raise TypeError
  end.

Definition opt_add_int (a : option Z) (b : Z) : result Z :=
  match a with
  | Some a => Ok (a + b)
  | None => Raise TypeError
  end.

Definition find_size (shape size : option (list shape_elem)) (ndim_supp : option Z)
    : result find_size_result :=
  match shape with
  | Some shape =>
      if bool_decide (SEllipsis ∈ shape) then
        Ok (FindSize None None None ndim_supp)
      else
        let ndim_expected := Z.of_nat (length shape) in
        ndim_batch <- int_sub_opt ndim_expected ndim_supp ;;
        let create_size := slice_to shape ndim_batch in
        Ok (FindSize (Some create_size) (Some ndim_expected) (Some ndim_batch) ndim_supp)
  | None =>
      match size with
      | Some size =>
          ndim_expected <- opt_add_int ndim_supp (Z.of_nat (length size)) ;;
          ndim_batch <- int_sub_opt ndim_expected ndim_supp ;;
          Ok (FindSize (Some size) (Some ndim_expected) (Some ndim_batch) ndim_supp)
      | None => Ok (FindSize None None None ndim_supp)
      end
  end.

(** ** [maybe_resize] *)

(** The [ShapeWarning]: "You may have expected a ([size_ndim]+[supp_ndim])-dimensional
    RV, but the resulting RV will be [actual_ndim]-dimensional." *)
Record shape_warning : Type := ShapeWarning {
  size_ndim : Z;
  supp_ndim : Z;
  actual_ndim : Z
}.

Section MaybeResize.
(** The random variables of the tensor library and what is done to them. *)
Context {RV Params : Type}.
Context (ndim : RV -> Z).
(** [change_rv_size(rv_var, new_size, expand=True)] *)
Context (change_rv_size : RV -> list shape_elem -> RV).
(** [rv_op( *dist_params, size=None, **kwargs)] *)
Context (rv_op : Params -> RV).

(** The [if shape is not None and ndims_unexpected] block. Comparing
    [rv_out.ndim < ndim_expected] raises when [ndim_expected] is [None]. *)
Definition resize_for_shape (rv_out : RV) (dist_params : Params)
    (ndim_expected ndim_batch : option Z) (ndim_supp : Z)
    (shape : list shape_elem) : result RV :=
  let ndim_actual := ndim rv_out in
  if bool_decide (SEllipsis ∈ shape) then
    Ok (change_rv_size rv_out (slice_to shape (-1)))
  else
    let rv_out := rv_op dist_params in
    match ndim_expected with
    | None => Raise TypeError
    | Some expected_ndim =>
        let rv_out :=
          if ndim rv_out <? expected_ndim
          then change_rv_size rv_out (slice_to shape (expected_ndim - ndim rv_out))
          else rv_out in
        if bool_decide (ndim rv_out = expected_ndim) then Ok rv_out
        else
          expected <- opt_add_int ndim_batch ndim_supp ;;
          Raise (ShapeError ndim_actual (Some expected))
    end.

(** Returns the variable together with the warnings emitted on the way. *)
Definition maybe_resize (rv_out : RV) (dist_params : Params)
    (ndim_expected ndim_batch : option Z) (ndim_supp : Z)
    (shape size : option (list shape_elem)) : result (RV * list shape_warning) :=
  let ndim_actual := ndim rv_out in
  let ndims_unexpected := negb (bool_decide (Some ndim_actual = ndim_expected)) in
  rv_out <- match shape with
            | Some shape =>
                if ndims_unexpected
                then resize_for_shape rv_out dist_params ndim_expected
                       ndim_batch ndim_supp shape
                else Ok rv_out
            | None => Ok rv_out
            end ;;
  let warnings :=
    match size with
    | Some size =>
        if ndims_unexpected
        then [ShapeWarning (Z.of_nat (length size)) ndim_supp ndim_actual]
        else []
    | None => []
    end in
  Ok (rv_out, warnings).
End MaybeResize.

(** ** NumPy broadcasting, as the reference

    Shapes are aligned on their last dimension. At each trailing position
    the dimensions present must agree up to ones; the result takes the
    largest dimension that is not 1, or 1 when there is none. *)

(** The dimension of [s] at position [k] counted from the end. *)
Definition dim_from_end (s : list Z) (k : nat) : option Z := reverse s !! k.

(** The dimensions the shapes have at trailing position [k]. *)
Definition dims_at (shapes : list (list Z)) (k : nat) : list Z :=
  omap (fun s => dim_from_end s k) shapes.

Definition non1 (ds : list Z) : list Z := filter (fun d => d ≠ 1) ds.

(** The maximum of the dimensions that are not 1, or 1 if all are 1. *)
Definition max_non1 (ds : list Z) : Z :=
  match non1 ds with
  | [] => 1
  | d :: ds' => foldr Z.max d ds'
  end.

(** All dimensions that are not 1 are equal. *)
Definition compatible_at (ds : list Z) : bool :=
  match non1 ds with
  | [] => true
  | d :: ds' => forallb (Z.eqb d) ds'
  end.

Definition np_rank (shapes : list (list Z)) : nat :=
  foldr Nat.max 0%nat (length <$> shapes).

Definition np_compatible (shapes : list (list Z)) : bool :=
  forallb (fun k => compatible_at (dims_at shapes k)) (seq 0 (np_rank shapes)).

Definition np_broadcast (shapes : list (list Z)) : list Z :=
  reverse ((fun k => max_non1 (dims_at shapes k)) <$> seq 0 (np_rank shapes)).

(** Shapes of non-empty arrays: every dimension is positive. *)
Definition all_positive (s : list Z) : bool := forallb (fun d => 0 <? d) s.

(** ** The loop on checked shapes *)

(** [bcast_loop] on arguments that pass the type check: [None] when some
    intermediate [x] fails the [all(x)] test. *)
Fixpoint bcast_fold (x : list Z) (ys : list (list Z)) : option (list Z) :=
  match ys with
  | [] => Some x
  | y :: ys' =>
      let x' := bcast_step x y in
      if all_nonzero x' then bcast_fold x' ys' else None
  end.

(** Broadcasting two shapes written last dimension first. *)
Fixpoint rzip (x y : list Z) : list Z :=
  match x, y with
  | [], _ => y
  | _, [] => x
  | i :: x', j :: y' => bcast_dim i j :: rzip x' y'
  end.

(** [l] extended with ones up to length [n]. *)
Fixpoint pad_ones (n : nat) (l : list Z) : list Z :=
  match n, l with
  | O, _ => l
  | S n', [] => 1 :: pad_ones n' []
  | S n', a :: l' => a :: pad_ones n' l'
  end.

(** A shape behind the [size] prefix, with ones in between up to rank [n]:
    the [p_shape] of a shape that [size] prepends. *)
Definition padded (_size : list Z) (n : nat) (sp_shape : list Z) : list Z :=
  _size ++ replicate (n - length sp_shape) 1 ++ sp_shape.

(** The shape with or without the prefix, as the second loop builds it. *)
Definition behind (f : bool) (sz : list Z) (n : nat) (a : list Z) : list Z :=
  if f then padded sz n a else a.

(** Continuing the loop after a prefix of the arguments: a failure of the
    prefix is the outcome. *)
Definition and_then (r : result (option (list Z)))
    (k : list Z -> result (option (list Z))) : result (option (list Z)) :=
  match r with
  | Ok (Some x) => k x
  | _ => r
  end.

(** ** Properties named by the specification *)

(** [e] is the integer [z]: an int, or a float whose value is a whole number. *)
Definition integral_value (e : raw_entry) (z : Z) : Prop :=
  match e with
  | RInt n => n = z
  | RFloat q => Qeq q (inject_Z z)
  | RNonNumeric _ => False
  | RNested _ => False
  end.

(** A shape with a non-numeric or non-integral entry. *)
Definition malformed (shape : list raw_entry) : Prop :=
  exists e, e ∈ shape /\ forall z, ~ integral_value e z.

(** [e] occurs in [l] at a position that is not the last one. *)
Definition before_last {A} (e : A) (l : list A) : Prop :=
  exists i : nat, (S i < length l)%nat /\ l !! i = Some e.

Definition is_value_error {A} (r : result A) : Prop :=
  match r with
  | Raise (ValueError _) => True
  | _ => False
  end.

(** The invariant of a converted [dims]: an ellipsis is the last element. *)
Definition ellipsis_only_last (dims : list dim_elem) : Prop :=
  forall i : nat, dims !! i = Some DEllipsis -> S i = length dims.

(** A trailing ellipsis replaced by [ndim_implied] placeholders. *)
Definition expand_trailing_ellipsis (dims : list dim_elem) (ndim_implied : Z)
    : list dim_elem :=
  if bool_decide (last dims = Some DEllipsis)
  then take (length dims - 1) dims ++ replicate (Z.to_nat ndim_implied) DNone
  else dims.

(** [d] is a name the registry has a length for. *)
Definition registered {L} (dim_lengths : gmap string L) (d : dim_elem) : Prop :=
  exists name, d = DName name /\ is_Some (dim_lengths !! name).

(** [len] is the registered length of [d]. *)
Definition length_in {L} (dim_lengths : gmap string L) (d : dim_elem) (len : L) : Prop :=
  exists name, d = DName name /\ dim_lengths !! name = Some len.

(** What the specification says of [resize_from_dims], for its result [r]:
    the number of leading dimensions to add, the expanded [dims] and the
    registered lengths of the leading dimensions are returned, or a
    [KeyError] names the leading dimensions that are not registered. *)
Definition resize_spec {L} (dims : list dim_elem) (ndim_implied : Z)
    (dim_lengths : gmap string L)
    (r : result (Z * list L * list dim_elem)) : Prop :=
  let expanded := expand_trailing_ellipsis dims ndim_implied in
  let ndim_resize := Z.of_nat (length expanded) - ndim_implied in
  let leading := take (Z.to_nat ndim_resize) expanded in
  match r with
  | Ok (n, resize_shape, out_dims) =>
      n = ndim_resize /\ out_dims = expanded
      /\ Forall2 (length_in dim_lengths) leading resize_shape
  | Raise e =>
      exists unknown : gset dim_elem,
        e = KeyError unknown /\ unknown <> ∅
        /\ forall d, d ∈ unknown <-> d ∈ leading /\ ~ registered dim_lengths d
  end.

(** A model registry with two dimensions, [a] of length 5 and [b] of length 7. *)
Definition example_registry : gmap string Z := <["a" := 5]> (<["b" := 7]> ∅).

(** What the specification says [find_size] returns for a [shape] without
    ellipsis: the leading [ndim_batch] elements as the creation size. *)
Definition find_size_leading (shape : list shape_elem) (supp : Z) : find_size_result :=
  let expected := Z.of_nat (length shape) in
  let batch := expected - supp in
  FindSize (Some (take (Z.to_nat batch) shape)) (Some expected) (Some batch) (Some supp).

(** Every component of the returned tuple is [None]. *)
Definition all_outputs_None (r : find_size_result) : Prop :=
  create_size r = None /\ ndim_expected r = None /\ ndim_batch r = None
  /\ ndim_supp r = None.

(** The outputs of [find_size] fit together: all three of [create_size],
    [ndim_expected], [ndim_batch] are [None], or all are given with
    [ndim_expected = ndim_batch + ndim_supp] and, for a support between 0
    and the expected rank, [ndim_batch] entries in [create_size]. *)
Definition find_size_outputs_fit (supp : option Z) (r : find_size_result) : Prop :=
  (create_size r = None /\ ndim_expected r = None /\ ndim_batch r = None)
  \/ (exists cs e b n,
        create_size r = Some cs /\ ndim_expected r = Some e
        /\ ndim_batch r = Some b /\ supp = Some n
        /\ e = b + n
        /\ (0 <= n <= e -> Z.of_nat (length cs) = b)).

(** ** Observed data and samples, by their shapes

    The array arguments of the remaining functions are only asked for
    their [shape] and [ndim], indexed with full slices and new axes, and
    handed to NumPy's broadcasting; none of this reads a value. An array
    is therefore represented by its shape, and [ndim] is its length. *)

(** Exceptions of Python's indexing and of NumPy, beside the ones the
    module raises itself. *)
Inductive py_exn : Type :=
  | ModuleError (e : exn)
  | IndexError        (* index out of range; too many indices for array *)
  | BroadcastError.   (* NumPy: shapes cannot be broadcast together *)

Inductive outcome (A : Type) : Type :=
  | Done (a : A)
  | Failed (e : py_exn).
Arguments Done {A} a.
Arguments Failed {A} e.

Definition outcome_bind {A B} (r : outcome A) (k : A -> outcome B) : outcome B :=
  match r with
  | Done a => k a
  | Failed e => Failed e
  end.

Notation "x <~ r ;; k" := (outcome_bind r (fun x => k))
  (at level 100, r at next level, right associativity).

(** A call into the functions above. *)
Definition lift {A} (r : result A) : outcome A :=
  match r with
  | Ok a => Done a
  | Raise e => Failed (ModuleError e)
  end.

(** [[f(a) for a in l]], stopping at the first exception. *)
Fixpoint outcome_mapM {A B} (f : A -> outcome B) (l : list A) : outcome (list B) :=
  match l with
  | [] => Done []
  | a :: l' => b <~ f a ;; bs <~ outcome_mapM f l' ;; Done (b :: bs)
  end.

(** [shape[d]] on a tuple. *)
Definition shape_item {L} (shape : list L) (d : nat) : outcome L :=
  match shape !! d with
  | Some len => Done len
  | None => Failed IndexError
  end.

(** [observed] stands for the array that has a [shape] (the result of
    [pandas_to_array] when the argument has none); [range(n)] is empty for
    [n <= 0]. *)
Definition resize_from_observed {L} (observed : list L) (ndim_implied : Z)
    : outcome (Z * list L * list L) :=
  let ndim_resize := Z.of_nat (length observed) - ndim_implied in
  resize_shape <~ outcome_mapM (shape_item observed)
                    (seq 0 (Z.to_nat ndim_resize)) ;;
  Done (ndim_resize, resize_shape, observed).

(** The two kinds of entries the slicers are made of. *)
Inductive index_item : Type :=
  | FullSlice    (* slice(None) *)
  | NewAxis.     (* np.newaxis *)

(** [param[tuple(slicer)]] on the shape of [param]: a full slice keeps the
    next axis, a new axis has length 1, the axes that are not indexed are
    kept, and a slice without an axis left is an [IndexError]. *)
Fixpoint index_shape (slicer : list index_item) (shape : list Z)
    : outcome (list Z) :=
  match slicer with
  | [] => Done shape
  | NewAxis :: slicer' =>
      rest <~ index_shape slicer' shape ;; Done (1 :: rest)
  | FullSlice :: slicer' =>
      match shape with
      | [] => Failed IndexError
      | d :: shape' => rest <~ index_shape slicer' shape' ;; Done (d :: rest)
      end
  end.

(** [slicer_head + slicer_tail] of the loop in
    [get_broadcastable_dist_samples]. *)
Definition sample_slicer (_size broadcast_shape p_shape sp_shape : list Z)
    : list index_item :=
  let '(slicer_head, slicer_tail) :=
    if has_size_prefix _size p_shape then
      (replicate (length _size) FullSlice,
       replicate (Z.to_nat (Z.of_nat (length broadcast_shape)
                            - Z.of_nat (length sp_shape))) NewAxis
       ++ replicate (length sp_shape) FullSlice)
    else ([], replicate (length sp_shape) FullSlice) in
  slicer_head ++ slicer_tail.

(** [[f(a, b, c) for a, b, c in zip(l1, l2, l3)]] *)
Fixpoint zip3_with {A B C D} (f : A -> B -> C -> D)
    (l1 : list A) (l2 : list B) (l3 : list C) : list D :=
  match l1, l2, l3 with
  | a :: l1', b :: l2', c :: l3' => f a b c :: zip3_with f l1' l2' l3'
  | _, _, _ => []
  end.

(** Returns the shapes of the views, and [out_shape] when
    [return_out_shape] is set. *)
Definition get_broadcastable_dist_samples (samples : list (list Z))
    (size must_bcast_with : size_arg) (return_out_shape : bool)
    : outcome (list (list Z) * option (list Z)) :=
  let _size := to_tuple size in
  let must_bcast_with := to_tuple must_bcast_with in
  checked <~ lift (_check_shape_type (ints must_bcast_with)) ;;
  let p_shapes := samples ++ [checked] in
  out_shape <~ lift (broadcast_dist_samples_shape (ints <$> p_shapes) size) ;;
  let sp_shapes := strip_size _size <$> p_shapes in
  broadcast_shape <~ lift (shapes_broadcasting (ints <$> sp_shapes) true) ;;
  match broadcast_shape with
  | None => Failed (ModuleError TypeError) (* len(None) *)
  | Some broadcast_shape =>
      broadcastable_samples <~
        outcome_mapM (fun view => view)
          (zip3_with
             (fun param p_shape sp_shape =>
                index_shape
                  (sample_slicer _size broadcast_shape p_shape sp_shape) param)
             samples p_shapes sp_shapes) ;;
      Done (broadcastable_samples,
            if return_out_shape then Some out_shape else None)
  end.

(** [np.broadcast_arrays( *arrays)]: every array gets the common shape. *)
Definition np_broadcast_arrays (shapes : list (list Z)) : outcome (list (list Z)) :=
  if np_compatible shapes
  then Done ((fun _ => np_broadcast shapes) <$> shapes)
  else Failed BroadcastError.

(** An array of shape [shape] can be stretched to [target]: it has no more
    axes, and each of its axes has length 1 or the length of the axis of
    [target] it is aligned with. *)
Definition can_broadcast_to (shape target : list Z) : bool :=
  (length shape <=? length target)%nat
  && forallb (fun k =>
                match dim_from_end shape k, dim_from_end target k with
                | Some d, Some t => (d =? 1) || (d =? t)
                | _, _ => true
                end)
       (seq 0 (length shape)).

(** No dimension is negative. *)
Definition all_nonneg (s : list Z) : bool := forallb (fun d => 0 <=? d) s.

(** [np.broadcast_to(array, shape)]: the requested shape must not have a
    negative entry, and the array must stretch to it. *)
Definition np_broadcast_to (shape target : list Z) : outcome (list Z) :=
  if all_nonneg target && can_broadcast_to shape target
  then Done target else Failed BroadcastError.

Definition broadcast_distribution_samples (samples : list (list Z))
    (size : size_arg) : outcome (list (list Z)) :=
  r <~ get_broadcastable_dist_samples samples size SizeNone false ;;
  np_broadcast_arrays (fst r).

Definition broadcast_dist_samples_to (to_shape : size_arg)
    (samples : list (list Z)) (size : size_arg) : outcome (list (list Z)) :=
  r <~ get_broadcastable_dist_samples samples size to_shape true ;;
  match r with
  | (samples, Some to_shape) =>
      outcome_mapM (fun o => np_broadcast_to o to_shape) samples
  | (_, None) => Failed (ModuleError TypeError) (* nothing to unpack *)
  end.

(** ** A random variable by its shape, for examples

    [ndim] is the number of dimensions; resizing with [expand=True] puts
    the new sizes in front. *)
Definition shape_rv_ndim (rv : list Z) : Z := Z.of_nat (length rv).

Definition shape_rv_resize (rv : list Z) (new_size : list shape_elem) : list Z :=
  ((fun e => match e with SInt z => z | _ => 0 end) <$> new_size) ++ rv.

(** * Proofs *)

(** ** Slices *)

Lemma slice_to_nonneg {A} (l : list A) (n : Z) :
  0 <= n -> slice_to l n = take (Z.to_nat n) l.
Proof.
  intros Hn. unfold slice_to.
  destruct (Z.leb_spec 0 n) as [_|Hlt]; [reflexivity | lia].
Qed.

Lemma slice_to_minus_one {A} (l : list A) :
  slice_to l (-1) = take (length l - 1)%nat l.
Proof.
  unfold slice_to. simpl. f_equal. lia.
Qed.

Lemma before_last_take {A} (e : A) (l : list A) :
  before_last e l <-> e ∈ take (length l - 1)%nat l.
Proof.
  unfold before_last. rewrite list_elem_of_lookup. split.
  - intros (i & Hi & Hl). exists i. rewrite lookup_take_Some. split; [done | lia].
  - intros (i & Hl). apply lookup_take_Some in Hl as [Hl Hi].
    exists i. split; [lia | done].
Qed.

Lemma any_ellipsis_dims_spec (l : list dim_elem) :
  any_ellipsis_dims l = true <-> DEllipsis ∈ l.
Proof.
  unfold any_ellipsis_dims. rewrite existsb_exists. split.
  - intros (d & Hin & Hd). apply bool_decide_eq_true in Hd. subst d.
    by apply list_elem_of_In.
  - intros Hin. exists DEllipsis. split; [by apply list_elem_of_In |].
    by apply bool_decide_eq_true.
Qed.

Lemma any_ellipsis_shape_spec (l : list shape_elem) :
  any_ellipsis_shape l = true <-> SEllipsis ∈ l.
Proof.
  unfold any_ellipsis_shape. rewrite existsb_exists. split.
  - intros (d & Hin & Hd). apply bool_decide_eq_true in Hd. subst d.
    by apply list_elem_of_In.
  - intros Hin. exists SEllipsis. split; [by apply list_elem_of_In |].
    by apply bool_decide_eq_true.
Qed.

(** ** [find_size] *)

(** C3, as the specification words it, fails when the support has more
    dimensions than [shape]: [(2, 3)[:-1]] is [(2,)], not an empty prefix. *)
Lemma find_size_leading_counterexample :
  find_size (Some [SInt 2; SInt 3]) None (Some 3)
    = Ok (FindSize (Some [SInt 2]) (Some 2) (Some (-1)) (Some 3))
  /\ find_size (Some [SInt 2; SInt 3]) None (Some 3)
       <> Ok (find_size_leading [SInt 2; SInt 3] 3).
Proof. split; [reflexivity | discriminate]. Qed.

(** C3 (amended): for a [shape] without ellipsis and an integer [ndim_supp]
    that does not exceed [len(shape)], [find_size(shape, None, ndim_supp)]
    returns [ndim_expected = len(shape)], [ndim_batch = ndim_expected - ndim_supp]
    and, as [create_size], the leading [ndim_batch] elements of [shape]. *)
Theorem find_size_shape_no_ellipsis (shape : list shape_elem) (supp : Z) :
  SEllipsis ∉ shape ->
  supp <= Z.of_nat (length shape) ->
  find_size (Some shape) None (Some supp) = Ok (find_size_leading shape supp).
Proof.
  intros Hno Hle. unfold find_size, find_size_leading.
  rewrite bool_decide_eq_false_2 by done. simpl.
  rewrite slice_to_nonneg by lia. reflexivity.
Qed.

Lemma find_size_shape_no_ellipsis_witness :
  find_size (Some [SInt 2; SInt 3]) None (Some 1)
    = Ok (FindSize (Some [SInt 2]) (Some 2) (Some 1) (Some 1)).
Proof.
  apply (find_size_shape_no_ellipsis [SInt 2; SInt 3] 1).
  - intros Hin. repeat (apply elem_of_cons in Hin as [Hin|Hin]; [discriminate |]).
    by apply elem_of_nil in Hin.
  - simpl. lia.
Defined.

(** C4, as stated, fails: the fourth output is the [ndim_supp] passed in. *)
Lemma find_size_all_None_counterexample :
  ~ exists r, find_size None None (Some 1) = Ok r /\ all_outputs_None r.
Proof.
  intros (r & Hr & _ & _ & _ & Hsupp). simpl in Hr.
  injection Hr as <-. discriminate.
Qed.

(** C4 (amended): with neither [shape] nor [size], [create_size],
    [ndim_expected] and [ndim_batch] are [None]; the fourth output is
    [ndim_supp] as passed. *)
Theorem find_size_neither_given (supp : option Z) :
  find_size None None supp = Ok (FindSize None None None supp).
Proof. reflexivity. Qed.

(** C10: [find_size] returns for every [shape], [size] and integer
    [ndim_supp], and whenever it returns, the fourth component of the
    result is the [ndim_supp] argument. *)
Theorem find_size_keeps_ndim_supp (shape size : option (list shape_elem)) :
  (forall supp : Z, exists r,
      find_size shape size (Some supp) = Ok r /\ ndim_supp r = Some supp)
  /\ (forall (supp : option Z) r,
      find_size shape size supp = Ok r -> ndim_supp r = supp).
Proof.
  split.
  - intros supp. unfold find_size.
    destruct shape as [shape|]; [case_bool_decide | destruct size as [size|]];
      simpl; eexists; (split; [reflexivity | reflexivity]).
  - intros supp r. unfold find_size.
    destruct shape as [shape|]; [case_bool_decide | destruct size as [size|]];
      destruct supp as [supp|]; simpl; intros Hr;
      try discriminate; by injection Hr as <-.
Qed.

Lemma find_size_keeps_ndim_supp_witness :
  ndim_supp (FindSize (Some [SInt 4]) (Some 2) (Some 1) (Some 1)) = Some 1.
Proof.
  apply (proj2 (find_size_keeps_ndim_supp None (Some [SInt 4])) (Some 1)).
  reflexivity.
Defined.

(** ** [convert_dims], [convert_shape], [convert_size] *)

Lemma convert_dims_seq (dims : list dim_elem) :
  convert_dims (DimsSeq dims)
  = if any_ellipsis_dims (take (length dims - 1)%nat dims)
    then Raise (ValueError DimsEllipsis) else Ok (Some dims).
Proof. unfold convert_dims. simpl. by rewrite slice_to_minus_one. Qed.

Lemma convert_shape_seq (shape : list shape_elem) :
  convert_shape (ShapeSeq shape)
  = if any_ellipsis_shape (take (length shape - 1)%nat shape)
    then Raise (ValueError ShapeEllipsis) else Ok (Some shape).
Proof. unfold convert_shape. simpl. by rewrite slice_to_minus_one. Qed.

(** C7: on a sequence, [convert_dims] and [convert_shape] raise a
    [ValueError] exactly when an ellipsis stands before the last position,
    and [convert_size] raises one exactly when an ellipsis occurs at all. *)
Theorem convert_ellipsis_errors (dims : list dim_elem) (shape size : list shape_elem) :
  (is_value_error (convert_dims (DimsSeq dims)) <-> before_last DEllipsis dims)
  /\ (is_value_error (convert_shape (ShapeSeq shape)) <-> before_last SEllipsis shape)
  /\ (is_value_error (convert_size (ShapeSeq size)) <-> SEllipsis ∈ size).
Proof.
  split; [| split].
  - rewrite convert_dims_seq, before_last_take, <- any_ellipsis_dims_spec.
    destruct (any_ellipsis_dims _); simpl; split; (done || discriminate).
  - rewrite convert_shape_seq, before_last_take, <- any_ellipsis_shape_spec.
    destruct (any_ellipsis_shape _); simpl; split; (done || discriminate).
  - unfold convert_size. simpl. case_bool_decide; simpl; split; done.
Qed.

(** The converters return the sequence itself when they do not raise. *)
Lemma convert_dims_seq_ok (dims : list dim_elem) :
  ~ before_last DEllipsis dims -> convert_dims (DimsSeq dims) = Ok (Some dims).
Proof.
  rewrite convert_dims_seq, before_last_take, <- any_ellipsis_dims_spec.
  by destruct (any_ellipsis_dims _).
Qed.

Lemma convert_dims_ellipsis_only_last (a : dims_arg) (dims : list dim_elem) :
  convert_dims a = Ok (Some dims) -> ellipsis_only_last dims.
Proof.
  assert (Hseq : forall l, convert_dims (DimsSeq l) = Ok (Some dims) ->
                           ellipsis_only_last dims).
  { intros l. rewrite convert_dims_seq.
    destruct (any_ellipsis_dims _) eqn:Hany; [discriminate |].
    intros [= ->] i Hi.
    destruct (decide (S i < length dims)%nat) as [Hlt|Hge].
    - assert (any_ellipsis_dims (take (length dims - 1)%nat dims) = true); [| congruence].
      apply any_ellipsis_dims_spec, before_last_take. by exists i.
    - apply lookup_lt_Some in Hi. lia. }
  destruct a as [|name|l|]; try discriminate.
  - intros [= <-]. intros [|i]; simpl; [done | discriminate].
  - apply Hseq.
Qed.

(** ** [maybe_resize] *)

Section MaybeResizeFacts.
Context {RV Params : Type}.
Context (ndim : RV -> Z).
Context (change_rv_size : RV -> list shape_elem -> RV).
Context (rv_op : Params -> RV).

(** C9: with [shape=None], a [size] and a variable whose [ndim] is not
    [ndim_expected], [maybe_resize] returns the variable unchanged and
    emits exactly one warning, which states the expected rank
    ([len(size)] plus [ndim_supp]) and the actual one; nothing is raised
    and neither [change_rv_size] nor [rv_op] is used. *)
Theorem maybe_resize_size_only_warns (rv_out : RV) (dist_params : Params)
    (expected batch : option Z) (supp : Z) (size : list shape_elem) :
  Some (ndim rv_out) <> expected ->
  maybe_resize ndim change_rv_size rv_op rv_out dist_params
    expected batch supp None (Some size)
  = Ok (rv_out, [ShapeWarning (Z.of_nat (length size)) supp (ndim rv_out)]).
Proof.
  intros Hne. unfold maybe_resize. simpl.
  by rewrite bool_decide_eq_false_2.
Qed.

(** When the rank is the expected one, nothing happens at all. *)
Lemma maybe_resize_expected (rv_out : RV) (dist_params : Params)
    (batch : option Z) (supp : Z) (shape size : option (list shape_elem)) :
  maybe_resize ndim change_rv_size rv_op rv_out dist_params
    (Some (ndim rv_out)) batch supp shape size
  = Ok (rv_out, []).
Proof.
  unfold maybe_resize. rewrite bool_decide_eq_true_2 by done.
  by destruct shape, size.
Qed.
End MaybeResizeFacts.

(** A variable is represented by its rank; resizing adds the new
    dimensions in front. *)
Lemma maybe_resize_size_only_warns_witness :
  maybe_resize (fun rv : Z => rv)
    (fun rv new_size => rv + Z.of_nat (length new_size)) (fun _ : unit => 0)
    3 tt (Some 2) (Some 2) 0 None (Some [SInt 5; SInt 7])
  = Ok (3, [ShapeWarning 2 0 3]).
Proof.
  apply (maybe_resize_size_only_warns (fun rv : Z => rv)
           (fun rv new_size => rv + Z.of_nat (length new_size)) (fun _ : unit => 0)
           3 tt (Some 2) (Some 2) 0 [SInt 5; SInt 7]).
  discriminate.
Defined.

(** ** [_check_shape_type] *)

Lemma check_entry_integral (e : raw_entry) (z : Z) :
  check_entry e = Some z <-> integral_value e z.
Proof.
  destruct e as [n|q|s|row]; simpl; try (split; [discriminate | done]).
  - split; congruence.
  - destruct q as [num den]. simpl.
    destruct (Qeq_bool _ _) eqn:Heq.
    + apply Qeq_bool_iff in Heq. unfold Qeq in *. simpl in *. split.
      * intros [= <-]. lia.
      * intros Hz. f_equal. rewrite Z.mul_1_r in Hz. rewrite Hz.
        apply Z.quot_mul. lia.
    + split; [discriminate |]. intros Hz. exfalso.
      apply Qeq_bool_neq in Heq. apply Heq. unfold Qeq in *. simpl in *.
      rewrite Z.mul_1_r in Hz. rewrite Hz, Z.quot_mul; lia.
Qed.

Lemma check_entries_ints (s : list Z) : check_entries (ints s) = Some s.
Proof. induction s as [|d s IH]; simpl; [done | by rewrite IH]. Qed.

Lemma check_shape_type_ints (s : list Z) : _check_shape_type (ints s) = Ok s.
Proof. unfold _check_shape_type. by rewrite check_entries_ints. Qed.

Lemma check_entries_None (shape : list raw_entry) :
  check_entries shape = None <-> malformed shape.
Proof.
  unfold malformed. induction shape as [|e shape IH]; simpl.
  - split; [discriminate |]. intros (e & Hin & _). by apply elem_of_nil in Hin.
  - destruct (check_entry e) as [o|] eqn:He.
    + apply check_entry_integral in He.
      destruct (check_entries shape) as [out|].
      * split; [discriminate |]. intros (e' & Hin & Hbad).
        apply elem_of_cons in Hin as [->|Hin]; [by destruct (Hbad o) |].
        assert (Some out = None) as Hnone by (apply IH; eauto).
        discriminate.
      * split; [| done]. intros _.
        destruct (proj1 IH eq_refl) as (e' & Hin & Hbad).
        exists e'. split; [by apply elem_of_cons; right | done].
    + split; [| done]. intros _. exists e. split; [by apply elem_of_cons; left |].
      intros z Hz. apply check_entry_integral in Hz. congruence.
Qed.

Lemma check_shape_type_malformed (shape : list raw_entry) :
  malformed shape <-> _check_shape_type shape = Raise TypeError.
Proof.
  rewrite <- check_entries_None. unfold _check_shape_type.
  destruct (check_entries shape); split; (done || discriminate).
Qed.

(** ** [shapes_broadcasting]: the order of the checks *)

Lemma bcast_loop_app (flag : bool) (pre rest : list (list raw_entry)) (x : list Z) :
  bcast_loop flag x (pre ++ rest)
  = and_then (bcast_loop flag x pre) (fun x' => bcast_loop flag x' rest).
Proof.
  revert x. induction pre as [|arg pre IH]; intros x; simpl; [done |].
  destruct (_check_shape_type arg) as [y|e]; simpl; [| done].
  destruct (all_nonzero (bcast_step x y)); [apply IH |].
  by destruct flag.
Qed.

Lemma shapes_broadcasting_app (flag : bool) (pre : list (list raw_entry))
    (arg : list raw_entry) (rest : list (list raw_entry)) :
  shapes_broadcasting (pre ++ arg :: rest) flag
  = and_then (shapes_broadcasting pre flag) (fun x =>
      match pre with
      | [] => shapes_broadcasting (arg :: rest) flag
      | _ => bcast_loop flag x (arg :: rest)
      end).
Proof.
  destruct pre as [|arg0 pre]; [done |].
  simpl. destruct (_check_shape_type arg0) as [x|e]; simpl; [| done].
  apply bcast_loop_app.
Qed.

(** C6, as stated, fails: the arguments are checked one at a time inside
    the loop, so a malformed third shape is never looked at when the first
    two already fail to broadcast. *)
Lemma type_error_first_counterexample :
  malformed [RFloat (5 # 2)]
  /\ shapes_broadcasting [ints [3]; ints [4]; [RFloat (5 # 2)]] true
     = Raise (ValueError DoNotBroadcast)
  /\ shapes_broadcasting [ints [3]; ints [4]; [RFloat (5 # 2)]] false
     = Ok None.
Proof.
  split; [| split; reflexivity].
  exists (RFloat (5 # 2)). split; [by apply list_elem_of_singleton |].
  intros z Hz. simpl in Hz. unfold Qeq in Hz. simpl in Hz. lia.
Qed.

(** C6 (amended): a malformed shape raises a [TypeError] when the loop
    reaches it, that is when the shapes before it pass the check and
    broadcast together; otherwise the outcome is the one of the shapes
    before it (their [TypeError], [ValueError] or [None]), whatever
    [raise_exception] is. *)
Theorem shapes_broadcasting_malformed (pre : list (list raw_entry))
    (bad : list raw_entry) (post : list (list raw_entry)) (flag : bool) :
  malformed bad ->
  shapes_broadcasting (pre ++ bad :: post) flag
  = match shapes_broadcasting pre flag with
    | Ok (Some _) => Raise TypeError
    | r => r
    end.
Proof.
  intros Hbad%check_shape_type_malformed.
  rewrite shapes_broadcasting_app.
  destruct (shapes_broadcasting pre flag) as [[x|]|e]; simpl; try done.
  destruct pre; simpl; by rewrite Hbad.
Qed.

Lemma shapes_broadcasting_malformed_witness :
  shapes_broadcasting ([ints [4; 1]; ints [5]] ++ [RInt 2; RNonNumeric "a"] :: []) false
  = Raise TypeError.
Proof.
  apply (shapes_broadcasting_malformed [ints [4; 1]; ints [5]]
           [RInt 2; RNonNumeric "a"] [] false).
  exists (RNonNumeric "a"). split.
  - apply elem_of_cons; right. by apply list_elem_of_singleton.
  - intros z Hz. exact Hz.
Defined.

(** ** Broadcasting one dimension *)

Lemma bcast_dim_1_l (j : Z) : bcast_dim 1 j = j.
Proof. reflexivity. Qed.

Lemma bcast_dim_1_r (i : Z) : bcast_dim i 1 = i.
Proof. unfold bcast_dim. simpl. destruct (Z.eqb_spec i 1); congruence. Qed.

Lemma bcast_dim_diag (i : Z) : bcast_dim i i = i.
Proof.
  unfold bcast_dim. destruct (Z.eqb_spec i 1); [done |].
  by rewrite Z.eqb_refl.
Qed.

Lemma bcast_dim_comm (i j : Z) : bcast_dim i j = bcast_dim j i.
Proof.
  unfold bcast_dim.
  destruct (Z.eqb_spec i 1), (Z.eqb_spec j 1), (Z.eqb_spec i j), (Z.eqb_spec j i);
    congruence.
Qed.

(** The rule yields the sentinel exactly on two different dimensions that
    are both not 1, or on a zero that is kept. *)
Lemma bcast_dim_zero (i j : Z) :
  bcast_dim i j = 0 <-> (i <> 1 /\ j <> 1 /\ i <> j) \/ (i = 0 /\ j = 0)
                        \/ (i = 0 /\ j = 1) \/ (i = 1 /\ j = 0).
Proof.
  unfold bcast_dim.
  destruct (Z.eqb_spec i 1), (Z.eqb_spec j 1), (Z.eqb_spec i j); lia.
Qed.

Lemma bcast_dim_agree (i j : Z) :
  i = 1 \/ j = 1 \/ i = j -> bcast_dim i j = i \/ bcast_dim i j = j.
Proof.
  unfold bcast_dim.
  destruct (Z.eqb_spec i 1), (Z.eqb_spec j 1), (Z.eqb_spec i j); lia.
Qed.

(** ** One step of the loop, last dimension first *)

Lemma rzip_nil_r (x : list Z) : rzip x [] = x.
Proof. by destruct x. Qed.

Lemma rzip_length (x y : list Z) :
  length (rzip x y) = (length x `max` length y)%nat.
Proof.
  revert y. induction x as [|i x IH]; intros [|j y]; simpl; auto with lia.
Qed.

Lemma rzip_lookup (x y : list Z) (k : nat) :
  rzip x y !! k
  = match x !! k, y !! k with
    | Some a, Some b => Some (bcast_dim a b)
    | Some a, None => Some a
    | None, o => o
    end.
Proof.
  revert y k. induction x as [|i x IH]; intros [|j y] [|k]; simpl; try done;
    first [ by destruct (x !! k) | apply IH ].
Qed.

Lemma rzip_zip (x y : list Z) :
  length x = length y -> rzip x y = zip_with_dims x y.
Proof.
  revert y. induction x as [|i x IH]; intros [|j y] Hlen; simpl in *; try done.
  f_equal. apply IH. lia.
Qed.

Lemma rzip_app (x y u v : list Z) :
  length x = length y -> rzip (x ++ u) (y ++ v) = rzip x y ++ rzip u v.
Proof.
  revert y. induction x as [|i x IH]; intros [|j y] Hlen; simpl in *; try done.
  f_equal. apply IH. lia.
Qed.

Lemma rzip_comm (x y : list Z) : rzip x y = rzip y x.
Proof.
  revert y. induction x as [|i x IH]; intros [|j y]; simpl; try done.
  by rewrite bcast_dim_comm, IH.
Qed.

Lemma zip_with_dims_app (x y u v : list Z) :
  length x = length y ->
  zip_with_dims (x ++ u) (y ++ v) = zip_with_dims x y ++ zip_with_dims u v.
Proof.
  revert y. induction x as [|i x IH]; intros [|j y] Hlen; simpl in *; try done.
  f_equal. apply IH. lia.
Qed.

Lemma zip_with_dims_length (x y : list Z) :
  length (zip_with_dims x y) = (length x `min` length y)%nat.
Proof.
  revert y. induction x as [|i x IH]; intros [|j y]; simpl; auto with lia.
Qed.

Lemma zip_with_dims_nil_r (x : list Z) : zip_with_dims x [] = [].
Proof. by destruct x. Qed.

Lemma zip_with_dims_reverse (x y : list Z) :
  length x = length y ->
  reverse (zip_with_dims x y) = zip_with_dims (reverse x) (reverse y).
Proof.
  revert y. induction x as [|i x IH]; intros [|j y] Hlen; simpl in *; try done.
  rewrite !reverse_cons, zip_with_dims_app by (rewrite !length_reverse; lia).
  rewrite IH by lia. done.
Qed.

(** The longer list keeps its head and the tails are combined. *)
Lemma bcast_step_longer (x y : list Z) :
  (length y <= length x)%nat ->
  bcast_step x y = reverse (rzip (reverse x) (reverse y)).
Proof.
  intros Hle. unfold bcast_step.
  destruct (Nat.ltb_spec (length x) (length y)) as [Hlt|_]; [lia |].
  assert (Hsplit : reverse x
                   = reverse (slice_last x (length y))
                     ++ reverse (take (length x - length y) x)).
  { unfold slice_last. by rewrite <- reverse_app, take_drop. }
  assert (Hlast : length (slice_last x (length y)) = length y).
  { unfold slice_last. rewrite length_drop. lia. }
  rewrite Hsplit.
  rewrite <- (app_nil_r (reverse y)) at 1.
  rewrite rzip_app by (rewrite !length_reverse; lia).
  rewrite rzip_nil_r, rzip_zip by (rewrite !length_reverse; lia).
  rewrite <- zip_with_dims_reverse by lia.
  rewrite reverse_app, !reverse_involutive.
  destruct (Nat.ltb_spec 0 (length y)) as [_|Hz]; [done |].
  assert (y = []) as -> by (apply length_zero_iff_nil; lia).
  rewrite zip_with_dims_nil_r, app_nil_r. simpl.
  by rewrite Nat.sub_0_r, firstn_all.
Qed.

Lemma bcast_step_rzip (x y : list Z) :
  bcast_step x y = reverse (rzip (reverse x) (reverse y)).
Proof.
  destruct (decide (length y <= length x)%nat) as [Hle|Hgt].
  - by apply bcast_step_longer.
  - rewrite rzip_comm, <- bcast_step_longer by lia.
    unfold bcast_step.
    destruct (Nat.ltb_spec (length x) (length y)) as [_|Hle]; [| lia].
    destruct (Nat.ltb_spec (length y) (length x)) as [Hlt|_]; [lia | done].
Qed.

Lemma bcast_step_length (x y : list Z) :
  length (bcast_step x y) = (length x `max` length y)%nat.
Proof. by rewrite bcast_step_rzip, length_reverse, rzip_length, !length_reverse. Qed.

Lemma dim_from_end_bcast_step (x y : list Z) (k : nat) :
  dim_from_end (bcast_step x y) k
  = match dim_from_end x k, dim_from_end y k with
    | Some a, Some b => Some (bcast_dim a b)
    | Some a, None => Some a
    | None, o => o
    end.
Proof.
  unfold dim_from_end. by rewrite bcast_step_rzip, reverse_involutive, rzip_lookup.
Qed.

(** ** The [all(x)] test *)

Lemma all_nonzero_spec (x : list Z) : all_nonzero x = true <-> 0 ∉ x.
Proof.
  unfold all_nonzero. rewrite forallb_forall. split.
  - intros Hall Hin%list_elem_of_In. specialize (Hall _ Hin). done.
  - intros Hnot d Hin%list_elem_of_In.
    destruct (Z.eqb_spec d 0) as [->|]; done.
Qed.

Lemma all_nonzero_reverse (x : list Z) : all_nonzero (reverse x) = all_nonzero x.
Proof.
  apply eq_true_iff_eq. rewrite !all_nonzero_spec. by rewrite elem_of_reverse.
Qed.

Lemma all_nonzero_app (x y : list Z) :
  all_nonzero (x ++ y) = all_nonzero x && all_nonzero y.
Proof. apply forallb_app. Qed.

Lemma all_positive_spec (s : list Z) :
  all_positive s = true <-> forall d, d ∈ s -> 0 < d.
Proof.
  unfold all_positive. rewrite forallb_forall. split.
  - intros Hall d Hin%list_elem_of_In. apply Hall in Hin. lia.
  - intros Hall d Hin%list_elem_of_In. apply Hall in Hin. lia.
Qed.

Lemma dim_from_end_elem (s : list Z) (k : nat) (d : Z) :
  dim_from_end s k = Some d -> d ∈ s.
Proof.
  unfold dim_from_end. intros Hk.
  apply elem_of_reverse, list_elem_of_lookup. eauto.
Qed.

Lemma elem_dim_from_end (s : list Z) (d : Z) :
  d ∈ s -> exists k, dim_from_end s k = Some d.
Proof.
  intros Hin%elem_of_reverse%list_elem_of_lookup. done.
Qed.

(** ** The loop on integer shapes *)

Lemma bcast_loop_ints (flag : bool) (x : list Z) (ys : list (list Z)) :
  bcast_loop flag x (ints <$> ys)
  = match bcast_fold x ys with
    | Some r => Ok (Some r)
    | None => if flag then Raise (ValueError DoNotBroadcast) else Ok None
    end.
Proof.
  revert x. induction ys as [|y ys IH]; intros x; simpl; [done |].
  rewrite check_shape_type_ints. simpl.
  destruct (all_nonzero (bcast_step x y)); [apply IH | done].
Qed.

Lemma shapes_broadcasting_ints (flag : bool) (x : list Z) (ys : list (list Z)) :
  shapes_broadcasting (ints <$> (x :: ys)) flag
  = match bcast_fold x ys with
    | Some r => Ok (Some r)
    | None => if flag then Raise (ValueError DoNotBroadcast) else Ok None
    end.
Proof.
  simpl. rewrite check_shape_type_ints. simpl. apply bcast_loop_ints.
Qed.

(** With [raise_exception=True] the function never returns [None]. *)
Lemma bcast_loop_strict (x : list Z) (args : list (list raw_entry)) :
  bcast_loop true x args <> Ok None.
Proof.
  revert x. induction args as [|arg args IH]; intros x; simpl; [done |].
  destruct (_check_shape_type arg) as [y|e]; simpl; [| done].
  destruct (all_nonzero (bcast_step x y)); [apply IH | done].
Qed.

Lemma shapes_broadcasting_strict (args : list (list raw_entry)) :
  shapes_broadcasting args true <> Ok None.
Proof.
  destruct args as [|arg0 args]; simpl; [done |].
  destruct (_check_shape_type arg0) as [x|e]; simpl; [| done].
  apply bcast_loop_strict.
Qed.

(** ** Columns of dimensions *)

Lemma non1_cons (a : Z) (ds : list Z) :
  non1 (a :: ds) = if decide (a = 1) then non1 ds else a :: non1 ds.
Proof.
  unfold non1. rewrite filter_cons. by destruct (decide (a = 1)); destruct (decide (a ≠ 1)).
Qed.

Lemma foldr_max_ge (d : Z) (ds : list Z) : d <= foldr Z.max d ds.
Proof. induction ds as [|e ds IH]; simpl; lia. Qed.

Lemma compatible_at_pair (a b : Z) :
  compatible_at [a; b] = true <-> a = 1 \/ b = 1 \/ a = b.
Proof.
  unfold compatible_at. rewrite !non1_cons.
  destruct (decide (a = 1)), (decide (b = 1)); simpl; try (split; [auto | done]).
  rewrite andb_true_r, Z.eqb_eq. lia.
Qed.

Lemma non1_one (ds : list Z) : non1 (1 :: ds) = non1 ds.
Proof. by rewrite non1_cons. Qed.

Lemma non1_other (a : Z) (ds : list Z) : a <> 1 -> non1 (a :: ds) = a :: non1 ds.
Proof. intros Ha. rewrite non1_cons. by destruct (decide (a = 1)). Qed.

(** Replacing two agreeing dimensions of a column by their broadcast
    changes neither the agreement nor the result of the column. *)
Lemma column_step (a b : Z) (ds : list Z) :
  compatible_at (a :: b :: ds) = true ->
  (a = 1 \/ b = 1 \/ a = b)
  /\ compatible_at (bcast_dim a b :: ds) = true
  /\ max_non1 (bcast_dim a b :: ds) = max_non1 (a :: b :: ds).
Proof.
  unfold compatible_at, max_non1.
  destruct (decide (a = 1)) as [->|Ha].
  { rewrite bcast_dim_1_l, (non1_one (b :: ds)). auto. }
  destruct (decide (b = 1)) as [->|Hb].
  { rewrite bcast_dim_1_r, (non1_other a (1 :: ds)), non1_one, non1_other by done.
    auto. }
  rewrite (non1_other a (b :: ds)), (non1_other b ds) by done. simpl.
  intros [Hab%Z.eqb_eq Hds]%andb_true_iff. subst b.
  rewrite bcast_dim_diag, non1_other by done.
  split; [auto |]. split; [done |].
  pose proof (foldr_max_ge a (non1 ds)). lia.
Qed.

Lemma dims_at_cons (s : list Z) (shapes : list (list Z)) (k : nat) :
  dims_at (s :: shapes) k
  = match dim_from_end s k with
    | Some d => d :: dims_at shapes k
    | None => dims_at shapes k
    end.
Proof. reflexivity. Qed.

Lemma dims_at_step (x y : list Z) (rest : list (list Z)) (k : nat) :
  compatible_at (dims_at (x :: y :: rest) k) = true ->
  compatible_at (dims_at (bcast_step x y :: rest) k) = true
  /\ max_non1 (dims_at (bcast_step x y :: rest) k)
     = max_non1 (dims_at (x :: y :: rest) k).
Proof.
  rewrite !dims_at_cons, dim_from_end_bcast_step.
  destruct (dim_from_end x k) as [a|], (dim_from_end y k) as [b|]; try done.
  intros H. by apply column_step in H as (_ & ? & ?).
Qed.

Lemma np_rank_cons (s : list Z) (shapes : list (list Z)) :
  np_rank (s :: shapes) = (length s `max` np_rank shapes)%nat.
Proof. reflexivity. Qed.

Lemma np_rank_step (x y : list Z) (rest : list (list Z)) :
  np_rank (bcast_step x y :: rest) = np_rank (x :: y :: rest).
Proof. rewrite !np_rank_cons, bcast_step_length. lia. Qed.

Lemma np_compatible_spec (shapes : list (list Z)) :
  np_compatible shapes = true
  <-> forall k, (k < np_rank shapes)%nat -> compatible_at (dims_at shapes k) = true.
Proof.
  unfold np_compatible. rewrite forallb_forall. split.
  - intros H k Hk. apply H, in_seq. lia.
  - intros H k Hk%in_seq. apply H. lia.
Qed.

Lemma np_compatible_step (x y : list Z) (rest : list (list Z)) :
  np_compatible (x :: y :: rest) = true ->
  np_compatible (bcast_step x y :: rest) = true
  /\ np_broadcast (bcast_step x y :: rest) = np_broadcast (x :: y :: rest).
Proof.
  rewrite !np_compatible_spec. unfold np_broadcast. rewrite np_rank_step.
  intros Hc. split.
  - intros k Hk. by apply dims_at_step, Hc.
  - f_equal. apply list_fmap_ext. intros i k Hk.
    apply lookup_seq in Hk as [-> Hlt]. by apply dims_at_step, Hc.
Qed.

(** Dimensions that agree in every column broadcast without a zero. *)
Lemma bcast_step_nonzero (x y : list Z) (rest : list (list Z)) :
  np_compatible (x :: y :: rest) = true ->
  all_positive x = true -> all_positive y = true ->
  all_positive (bcast_step x y) = true.
Proof.
  rewrite np_compatible_spec, !all_positive_spec. intros Hc Hx Hy d Hd.
  apply elem_dim_from_end in Hd as [k Hk].
  assert (Hlt : (k < np_rank (x :: y :: rest))%nat).
  { rewrite <- np_rank_step, np_rank_cons. unfold dim_from_end in Hk.
    apply lookup_lt_Some in Hk. rewrite length_reverse in Hk. lia. }
  specialize (Hc k Hlt). rewrite !dims_at_cons in Hc.
  rewrite dim_from_end_bcast_step in Hk.
  destruct (dim_from_end x k) as [a|] eqn:Ha, (dim_from_end y k) as [b|] eqn:Hb;
    try discriminate.
  - injection Hk as <-. apply column_step in Hc as (Hab & _).
    apply dim_from_end_elem in Ha, Hb. apply Hx in Ha. apply Hy in Hb.
    destruct (bcast_dim_agree a b Hab) as [-> | ->]; done.
  - injection Hk as <-. eauto using dim_from_end_elem.
  - injection Hk as <-. eauto using dim_from_end_elem.
Qed.

Lemma all_positive_nonzero (s : list Z) :
  all_positive s = true -> all_nonzero s = true.
Proof.
  rewrite all_positive_spec, all_nonzero_spec. intros H H0%H. lia.
Qed.

Lemma np_broadcast_single (x : list Z) : np_broadcast [x] = x.
Proof.
  unfold np_broadcast. rewrite <- (reverse_involutive x) at 2. f_equal.
  apply list_eq. intros k.
  rewrite list_lookup_fmap, np_rank_cons. simpl. rewrite Nat.max_0_r.
  destruct (decide (k < length x)%nat) as [Hlt|Hge].
  - rewrite lookup_seq_lt by done. simpl.
    destruct (reverse x !! k) as [d|] eqn:Hd.
    + unfold dims_at, dim_from_end. simpl. rewrite Hd. simpl.
      unfold max_non1. rewrite non1_cons. by destruct (decide (d = 1)) as [->|].
    + apply lookup_ge_None in Hd. rewrite length_reverse in Hd. lia.
  - rewrite lookup_seq_ge by lia. symmetry. apply lookup_ge_None.
    rewrite length_reverse. lia.
Qed.

(** The loop computes the NumPy result of the shapes it has been given. *)
Lemma bcast_fold_numpy (ys : list (list Z)) (x : list Z) :
  all_positive x = true ->
  forallb all_positive ys = true ->
  np_compatible (x :: ys) = true ->
  bcast_fold x ys = Some (np_broadcast (x :: ys)).
Proof.
  revert x. induction ys as [|y ys IH]; intros x Hx Hys Hc; simpl.
  - by rewrite np_broadcast_single.
  - simpl in Hys. apply andb_true_iff in Hys as [Hy Hys].
    pose proof (bcast_step_nonzero x y ys Hc Hx Hy) as Hpos.
    rewrite (all_positive_nonzero _ Hpos).
    apply np_compatible_step in Hc as [Hc <-].
    by apply IH.
Qed.

(** ** [shapes_broadcasting] against NumPy *)

(** For shapes of non-empty arrays (all dimensions positive) that are
    broadcast-compatible, [shapes_broadcasting] returns the NumPy result,
    whatever [raise_exception] is. *)
Theorem shapes_broadcasting_numpy (shapes : list (list Z)) (flag : bool) :
  forallb all_positive shapes = true ->
  np_compatible shapes = true ->
  shapes_broadcasting (ints <$> shapes) flag = Ok (Some (np_broadcast shapes)).
Proof.
  destruct shapes as [|x ys]; [done |].
  intros [Hx Hys]%andb_true_iff Hc.
  rewrite shapes_broadcasting_ints. by rewrite bcast_fold_numpy.
Qed.

Lemma shapes_broadcasting_numpy_witness :
  shapes_broadcasting (ints <$> [[8; 1; 6; 1]; [7; 1; 5]; [1]]) true
  = Ok (Some [8; 7; 6; 5]).
Proof.
  apply (shapes_broadcasting_numpy [[8; 1; 6; 1]; [7; 1; 5]; [1]] true);
    reflexivity.
Defined.

(** C1 at a shape with a zero dimension: [(0,)] and [(1,)] broadcast to
    [(0,)] under the NumPy rules, and the pairwise rule yields that 0,
    but the [all(x)] test then takes it for the incompatibility sentinel. *)
Theorem shapes_broadcasting_zero_dim :
  np_compatible [[0]; [1]] = true
  /\ np_broadcast [[0]; [1]] = [0]
  /\ bcast_step [0] [1] = [0]
  /\ shapes_broadcasting [ints [0]; ints [1]] false = Ok None
  /\ shapes_broadcasting [ints [0]; ints [1]] true = Raise (ValueError DoNotBroadcast)
  /\ shapes_broadcasting [ints [0]] false = Ok (Some [0]).
Proof. repeat split; reflexivity. Qed.

Lemma forallb_false_witness {A} (f : A -> bool) (l : list A) :
  forallb f l = false -> exists a, In a l /\ f a = false.
Proof.
  induction l as [|a l IH]; simpl; [discriminate |].
  destruct (f a) eqn:Hfa; simpl.
  - intros (a' & Hin & Ha')%IH. eauto.
  - eauto.
Qed.

Lemma bcast_step_incompatible (x y : list Z) :
  np_compatible [x; y] = false -> all_nonzero (bcast_step x y) = false.
Proof.
  intros (k & _ & Hk)%forallb_false_witness.
  apply not_true_is_false. rewrite all_nonzero_spec. intros Hnot. apply Hnot.
  apply (dim_from_end_elem _ k). rewrite dim_from_end_bcast_step.
  rewrite !dims_at_cons in Hk. unfold dims_at in Hk. simpl in Hk.
  destruct (dim_from_end x k) as [a|], (dim_from_end y k) as [b|].
  - f_equal. apply bcast_dim_zero. left.
    assert (Hn : ~ (a = 1 \/ b = 1 \/ a = b)).
    { rewrite <- compatible_at_pair. congruence. }
    lia.
  - exfalso. revert Hk. unfold compatible_at. rewrite non1_cons.
    by destruct (decide (a = 1)).
  - exfalso. revert Hk. unfold compatible_at. rewrite non1_cons.
    by destruct (decide (b = 1)).
  - discriminate.
Qed.

(** C5: two shapes (tuples of dimensions as arrays have them) that are
    not broadcast-compatible make [shapes_broadcasting] raise a
    [ValueError] with [raise_exception=True] and return [None] with
    [raise_exception=False]. *)
Theorem shapes_broadcasting_incompatible (x y : list Z) :
  array_shape x = true ->
  array_shape y = true ->
  np_compatible [x; y] = false ->
  shapes_broadcasting [ints x; ints y] true = Raise (ValueError DoNotBroadcast)
  /\ shapes_broadcasting [ints x; ints y] false = Ok None.
Proof.
  intros _ _ Hc. simpl. rewrite !check_shape_type_ints. simpl.
  by rewrite (bcast_step_incompatible x y Hc).
Qed.

Lemma shapes_broadcasting_incompatible_witness :
  shapes_broadcasting [ints [3]; ints [4]] true = Raise (ValueError DoNotBroadcast)
  /\ shapes_broadcasting [ints [3]; ints [4]] false = Ok None.
Proof.
  apply (shapes_broadcasting_incompatible [3] [4]); reflexivity.
Defined.

(** ** Padding with ones *)

Lemma pad_ones_nil_app (n : nat) : pad_ones n [] = replicate n 1.
Proof. induction n as [|n IH]; simpl; [done | by rewrite IH]. Qed.

Lemma pad_ones_app (n : nat) (l : list Z) :
  pad_ones n l = l ++ replicate (n - length l) 1.
Proof.
  revert l. induction n as [|n IH]; intros [|a l]; simpl.
  - done.
  - by rewrite app_nil_r.
  - by rewrite pad_ones_nil_app.
  - by rewrite IH.
Qed.

Lemma pad_ones_length (n : nat) (l : list Z) :
  length (pad_ones n l) = (n `max` length l)%nat.
Proof. rewrite pad_ones_app, length_app, length_replicate. lia. Qed.

Lemma pad_ones_full (n : nat) (l : list Z) :
  (n <= length l)%nat -> pad_ones n l = l.
Proof.
  intros Hle. rewrite pad_ones_app.
  replace (n - length l)%nat with 0%nat by lia. apply app_nil_r.
Qed.

Lemma rzip_pad_l (n : nat) (x y : list Z) :
  rzip (pad_ones n x) y = pad_ones n (rzip x y).
Proof.
  revert x y. induction n as [|n IH]; intros [|i x] [|j y];
    try reflexivity; simpl; by rewrite ?bcast_dim_1_l, IH.
Qed.

Lemma rzip_pad_both (n : nat) (x y : list Z) :
  rzip (pad_ones n x) (pad_ones n y) = pad_ones n (rzip x y).
Proof.
  revert x y. induction n as [|n IH]; intros [|i x] [|j y];
    try reflexivity; simpl;
    rewrite ?bcast_dim_1_l, ?bcast_dim_1_r, IH; try done.
  by rewrite rzip_nil_r.
Qed.

Lemma rzip_app_l (x u y : list Z) :
  (length y <= length x)%nat -> rzip (x ++ u) y = rzip x y ++ u.
Proof.
  revert y. induction x as [|i x IH]; intros [|j y] Hle; simpl in *;
    try done; try lia.
  - apply rzip_nil_r.
  - f_equal. apply IH. lia.
Qed.

Lemma rzip_diag (z : list Z) : rzip z z = z.
Proof. induction z as [|i z IH]; simpl; [done | by rewrite bcast_dim_diag, IH]. Qed.

Lemma all_nonzero_replicate_one (k : nat) : all_nonzero (replicate k 1) = true.
Proof. induction k; simpl; done. Qed.

Lemma reverse_padded (sz : list Z) (n : nat) (a : list Z) :
  reverse (padded sz n a) = pad_ones n (reverse a) ++ reverse sz.
Proof.
  unfold padded. rewrite !reverse_app, reverse_replicate, pad_ones_app.
  by rewrite length_reverse, <- app_assoc.
Qed.

Lemma padded_full (sz b : list Z) : padded sz (length b) b = sz ++ b.
Proof. unfold padded. by rewrite Nat.sub_diag. Qed.

Lemma padded_length (sz : list Z) (n : nat) (a : list Z) :
  (length a <= n)%nat -> length (padded sz n a) = (length sz + n)%nat.
Proof.
  intros Hle. unfold padded. rewrite !length_app, length_replicate. lia.
Qed.

Lemma all_nonzero_padded (sz : list Z) (n : nat) (a : list Z) :
  all_nonzero (padded sz n a) = all_nonzero sz && all_nonzero a.
Proof.
  unfold padded. by rewrite !all_nonzero_app, all_nonzero_replicate_one.
Qed.

Lemma bcast_step_comm (x y : list Z) : bcast_step x y = bcast_step y x.
Proof. by rewrite !bcast_step_rzip, rzip_comm. Qed.

(** Broadcasting behind the size prefix. *)
Lemma bcast_step_padded_l (sz : list Z) (n : nat) (a sp : list Z) :
  (length a <= n)%nat -> (length sp <= n)%nat ->
  bcast_step (padded sz n a) sp = padded sz n (bcast_step a sp).
Proof.
  intros Ha Hsp. apply (inj reverse).
  rewrite reverse_padded, !bcast_step_rzip, !reverse_involutive, reverse_padded.
  rewrite rzip_app_l by (rewrite pad_ones_length, length_reverse; lia).
  by rewrite rzip_pad_l.
Qed.

Lemma bcast_step_padded_both (sz : list Z) (n : nat) (a sp : list Z) :
  (length a <= n)%nat -> (length sp <= n)%nat ->
  bcast_step (padded sz n a) (padded sz n sp) = padded sz n (bcast_step a sp).
Proof.
  intros Ha Hsp. apply (inj reverse).
  rewrite reverse_padded, !bcast_step_rzip, !reverse_involutive, !reverse_padded.
  rewrite rzip_app by (rewrite !pad_ones_length, !length_reverse; lia).
  by rewrite rzip_pad_both, rzip_diag.
Qed.

(** ** [broadcast_dist_samples_shape] *)

Lemma has_size_prefix_starts (sz s : list Z) :
  has_size_prefix sz s = starts_with_size sz s.
Proof.
  unfold has_size_prefix, starts_with_size.
  destruct (decide (length sz <= length s)%nat) as [Hle|Hgt].
  - by rewrite Nat.min_l.
  - rewrite Nat.min_r by lia. by rewrite !take_ge by lia.
Qed.

Lemma starts_with_size_split (sz s : list Z) :
  starts_with_size sz s = true -> s = sz ++ strip_size sz s.
Proof.
  intros Hs. unfold strip_size. rewrite has_size_prefix_starts, Hs.
  apply bool_decide_eq_true in Hs. unfold slice_from.
  rewrite Hs at 1. by rewrite take_drop.
Qed.

(** A shape that [size] prepends gets ones between the prefix and the
    rest; any other shape is left as it is. *)
Lemma pad_shape_behind (sz b s : list Z) :
  pad_shape sz b s (strip_size sz s)
  = behind (has_size_prefix sz s) sz (length b) (strip_size sz s).
Proof.
  unfold pad_shape, behind. rewrite has_size_prefix_starts.
  destruct (starts_with_size sz s) eqn:Hs; [| by unfold strip_size; rewrite has_size_prefix_starts, Hs].
  unfold padded. f_equal.
  - apply bool_decide_eq_true in Hs. by rewrite <- Hs.
  - f_equal; [f_equal; lia |].
    unfold strip_size. by rewrite has_size_prefix_starts, Hs.
Qed.

Lemma zip_map_fmap {A B C} (f : A -> B -> C) (g : A -> B) (l : list A) :
  zip_map f l (g <$> l) = (fun a => f a (g a)) <$> l.
Proof. induction l as [|a l IH]; [done | simpl; f_equal; exact IH]. Qed.

Lemma mapM_check_ints (shapes : list (list Z)) :
  mapM _check_shape_type (ints <$> shapes) = Ok shapes.
Proof.
  induction shapes as [|s shapes IH]; [done |].
  rewrite fmap_cons. simpl. rewrite check_shape_type_ints. simpl.
  by rewrite IH.
Qed.

Lemma bcast_fold_length (ys : list (list Z)) (x b : list Z) :
  bcast_fold x ys = Some b ->
  (length x <= length b)%nat /\ Forall (fun y => (length y <= length b)%nat) ys.
Proof.
  revert x. induction ys as [|y ys IH]; intros x; simpl.
  - intros [= ->]. auto.
  - destruct (all_nonzero (bcast_step x y)); [| discriminate].
    intros [Hx Hys]%IH. rewrite bcast_step_length in Hx.
    split; [lia |]. constructor; [lia | done].
Qed.

Lemma bcast_step_behind (f pf : bool) (sz : list Z) (n : nat) (a sp : list Z) :
  (length a <= n)%nat -> (length sp <= n)%nat ->
  bcast_step (behind f sz n a) (behind pf sz n sp)
  = behind (f || pf) sz n (bcast_step a sp).
Proof.
  intros Ha Hsp. destruct f, pf; simpl.
  - by apply bcast_step_padded_both.
  - by apply bcast_step_padded_l.
  - rewrite bcast_step_comm, (bcast_step_comm a sp). by apply bcast_step_padded_l.
  - done.
Qed.

Lemma all_nonzero_behind (f : bool) (sz : list Z) (n : nat) (a : list Z) :
  all_nonzero sz = true -> all_nonzero a = true ->
  all_nonzero (behind f sz n a) = true.
Proof.
  intros Hsz Ha. destruct f; simpl; [| done].
  by rewrite all_nonzero_padded, Hsz, Ha.
Qed.

(** The second loop follows the first one behind the size prefix. *)
Lemma bcast_fold_behind (sz b : list Z) (shapes : list (list Z))
    (f : bool) (a : list Z) :
  all_nonzero sz = true ->
  bcast_fold a (strip_size sz <$> shapes) = Some b ->
  bcast_fold (behind f sz (length b) a)
    ((fun s => pad_shape sz b s (strip_size sz s)) <$> shapes)
  = Some (behind (f || existsb (has_size_prefix sz) shapes) sz (length b) b).
Proof.
  intros Hsz. revert f a. induction shapes as [|s shapes IH]; intros f a.
  - simpl. intros [= ->]. by rewrite orb_false_r.
  - rewrite !fmap_cons. intros Hfold.
    destruct (bcast_fold_length _ _ _ Hfold) as [Ha Hys].
    apply Forall_cons in Hys as [Hsp _].
    cbn [bcast_fold existsb] in Hfold |- *.
    destruct (all_nonzero (bcast_step a (strip_size sz s))) eqn:Hnz; [| discriminate].
    rewrite pad_shape_behind, bcast_step_behind by done.
    rewrite all_nonzero_behind by done.
    rewrite IH by done. by rewrite orb_assoc.
Qed.

(** The stripped shapes broadcast to [b]; then the result is [b] behind
    [size] if some shape carries the prefix, and [b] itself otherwise. *)
Lemma broadcast_dist_samples_shape_sized (size : size_arg)
    (shapes : list (list Z)) (b : list Z) :
  size <> SizeNone ->
  all_nonzero (to_tuple size) = true ->
  shapes_broadcasting (ints <$> (strip_size (to_tuple size) <$> shapes)) true
    = Ok (Some b) ->
  broadcast_dist_samples_shape (ints <$> shapes) size
  = Ok (if existsb (has_size_prefix (to_tuple size)) shapes
        then to_tuple size ++ b else b).
Proof.
  intros Hsize Hnz Hb.
  assert (Hbody :
    (shapes' <- mapM _check_shape_type (ints <$> shapes) ;;
     let _size := to_tuple size in
     let sp_shapes := map (strip_size _size) shapes' in
     match shapes_broadcasting (map ints sp_shapes) true with
     | Raise (ValueError _) => Raise (ValueError CannotBroadcast)
     | Raise e => Raise e
     | Ok None => Raise TypeError
     | Ok (Some broadcast_shape) =>
         let broadcastable_shapes :=
           zip_map (pad_shape _size broadcast_shape) shapes' sp_shapes in
         r <- shapes_broadcasting (map ints broadcastable_shapes) true ;;
         match r with
         | Some s => Ok s
         | None => Raise TypeError
         end
     end)
    = Ok (if existsb (has_size_prefix (to_tuple size)) shapes
          then to_tuple size ++ b else b)).
  { rewrite mapM_check_ints. simpl.
    change (map ints (map (strip_size (to_tuple size)) shapes))
      with (ints <$> (strip_size (to_tuple size) <$> shapes)).
    rewrite Hb.
    change (map (strip_size (to_tuple size)) shapes)
      with (strip_size (to_tuple size) <$> shapes).
    rewrite zip_map_fmap.
    destruct shapes as [|s shapes]; [by injection Hb as <- |].
    change (map ints ?l) with (ints <$> l).
    rewrite fmap_cons, shapes_broadcasting_ints in Hb.
    destruct (bcast_fold _ _) as [b'|] eqn:Hfold; [| discriminate].
    injection Hb as ->.
    rewrite fmap_cons, shapes_broadcasting_ints, pad_shape_behind.
    rewrite (bcast_fold_behind _ b) by done. simpl.
    destruct (has_size_prefix (to_tuple size) s || existsb _ shapes); simpl;
      [by rewrite padded_full | done]. }
  destruct size; [done | exact Hbody | exact Hbody].
Qed.

Lemma shapes_broadcasting_rank (ys : list (list Z)) (b : list Z) :
  shapes_broadcasting (ints <$> ys) true = Ok (Some b) ->
  Forall (fun y => (length y <= length b)%nat) ys.
Proof.
  destruct ys as [|x ys]; [constructor |].
  rewrite shapes_broadcasting_ints.
  destruct (bcast_fold x ys) as [b'|] eqn:Hfold; [| discriminate].
  intros [= ->]. apply bcast_fold_length in Hfold as [Hx Hys]. by constructor.
Qed.

(** With a [size] that has no zero entry, [broadcast_dist_samples_shape]
    broadcasts the shapes without their [size] prefix; a shape that
    carries the prefix is rebuilt as prefix, ones, remainder, of rank
    [len(size)] plus the rank of that broadcast; and the result is the
    broadcast behind [size] when some shape carries the prefix (the
    broadcast itself otherwise). The two examples of the specification
    follow. *)
Theorem broadcast_dist_samples_shape_spec :
  (forall (size : size_arg) (shapes : list (list Z)) (b : list Z),
      size <> SizeNone ->
      all_nonzero (to_tuple size) = true ->
      shapes_broadcasting (ints <$> (strip_size (to_tuple size) <$> shapes)) true
        = Ok (Some b) ->
      broadcast_dist_samples_shape (ints <$> shapes) size
        = Ok (if existsb (has_size_prefix (to_tuple size)) shapes
              then to_tuple size ++ b else b)
      /\ forall s, s ∈ shapes -> has_size_prefix (to_tuple size) s = true ->
           let sp := strip_size (to_tuple size) s in
           s = to_tuple size ++ sp
           /\ pad_shape (to_tuple size) b s sp
              = to_tuple size ++ replicate (length b - length sp) 1 ++ sp
           /\ length (pad_shape (to_tuple size) b s sp)
              = (length (to_tuple size) + length b)%nat)
  /\ broadcast_dist_samples_shape
       [ints [100]; ints [100; 5]; ints [100; 4; 5]] (SizeInt 100)
     = Ok [100; 4; 5]
  /\ broadcast_dist_samples_shape
       [ints [1]; ints [5]; ints [4; 5]] (SizeInt 100)
     = Ok [4; 5].
Proof.
  split; [| split; reflexivity].
  intros size shapes b Hsize Hnz Hb.
  split; [by apply broadcast_dist_samples_shape_sized |].
  intros s Hs Hpre sp.
  assert (Hrank : (length sp <= length b)%nat).
  { apply shapes_broadcasting_rank in Hb.
    rewrite Forall_forall in Hb. apply Hb. by apply list_elem_of_fmap_2. }
  split; [| split].
  - apply starts_with_size_split. by rewrite <- has_size_prefix_starts.
  - subst sp. by rewrite pad_shape_behind, Hpre.
  - subst sp. rewrite pad_shape_behind, Hpre. simpl. by apply padded_length.
Qed.

Lemma broadcast_dist_samples_shape_spec_witness :
  broadcast_dist_samples_shape (ints <$> [[100]; [5]; [4; 5]]) (SizeInt 100)
  = Ok [100; 4; 5].
Proof.
  apply (proj1 (proj1 broadcast_dist_samples_shape_spec
                  (SizeInt 100) [[100]; [5]; [4; 5]] [4; 5]
                  ltac:(discriminate) eq_refl eq_refl)).
Defined.

(** C2 at a [size] of zero draws: the three shapes carry the prefix
    [(0,)], the shapes without it broadcast to [(4, 5)], and the padded
    shapes are NumPy-compatible with broadcast [(0, 4, 5)]; but the last
    call of [shapes_broadcasting] takes the 0 of the prefix for its
    sentinel, and a [ValueError] comes out instead of [(0, 4, 5)]. With
    the one shape [(0, 5)] the same [size] is prepended as documented. *)
Theorem broadcast_dist_samples_shape_zero_size :
  existsb (has_size_prefix (to_tuple (SizeInt 0))) [[0]; [0; 5]; [0; 4; 5]] = true
  /\ shapes_broadcasting
       (ints <$> (strip_size (to_tuple (SizeInt 0)) <$> [[0]; [0; 5]; [0; 4; 5]]))
       true
     = Ok (Some [4; 5])
  /\ zip_map (pad_shape (to_tuple (SizeInt 0)) [4; 5]) [[0]; [0; 5]; [0; 4; 5]]
       (strip_size (to_tuple (SizeInt 0)) <$> [[0]; [0; 5]; [0; 4; 5]])
     = [[0; 1; 1]; [0; 1; 5]; [0; 4; 5]]
  /\ np_compatible [[0; 1; 1]; [0; 1; 5]; [0; 4; 5]] = true
  /\ np_broadcast [[0; 1; 1]; [0; 1; 5]; [0; 4; 5]] = [0; 4; 5]
  /\ broadcast_dist_samples_shape
       [ints [0]; ints [0; 5]; ints [0; 4; 5]] (SizeInt 0)
     = Raise (ValueError DoNotBroadcast)
  /\ broadcast_dist_samples_shape [ints [0; 5]] (SizeInt 0) = Ok [0; 5].
Proof. repeat split; reflexivity. Qed.

(** Without a [size] the result is the one of [shapes_broadcasting], and
    its [None] becomes a [ValueError]. *)
Lemma broadcast_dist_samples_shape_unsized (shapes : list (list raw_entry)) :
  broadcast_dist_samples_shape shapes SizeNone
  = match shapes_broadcasting shapes false with
    | Ok (Some s) => Ok s
    | Ok None => Raise (ValueError CannotBroadcast)
    | Raise e => Raise e
    end.
Proof.
  unfold broadcast_dist_samples_shape.
  by destruct (shapes_broadcasting shapes false) as [[s|]|e].
Qed.

(** ** [resize_from_dims] *)

Lemma ellipsis_only_last_in (dims : list dim_elem) :
  ellipsis_only_last dims ->
  DEllipsis ∈ dims <-> last dims = Some DEllipsis.
Proof.
  intros Hlast. rewrite last_lookup. split.
  - intros (i & Hi)%list_elem_of_lookup.
    rewrite <- (Hlast i Hi). done.
  - intros Hl. apply list_elem_of_lookup. eauto.
Qed.

Lemma registry_keys_spec {L} (dim_lengths : gmap string L) (d : dim_elem) :
  d ∈ registry_keys dim_lengths <-> registered dim_lengths d.
Proof.
  unfold registry_keys, registered. rewrite elem_of_map.
  split; intros (name & -> & Hn); exists name; split; try done;
    by apply elem_of_dom.
Qed.

Lemma registered_dec {L} (dim_lengths : gmap string L) (d : dim_elem) :
  Decision (registered dim_lengths d).
Proof.
  destruct (decide (d ∈ registry_keys dim_lengths)) as [Hin|Hnot].
  - left. by apply registry_keys_spec.
  - right. by rewrite <- registry_keys_spec.
Qed.

Lemma mapM_dim_length_of {L} (dim_lengths : gmap string L) (l : list dim_elem) :
  (forall d, d ∈ l -> registered dim_lengths d) ->
  exists lens, mapM (dim_length_of dim_lengths) l = Ok lens
               /\ Forall2 (length_in dim_lengths) l lens.
Proof.
  induction l as [|d l IH]; intros Hreg.
  - exists []. by split; [| constructor].
  - destruct (Hreg d) as (name & -> & len & Hlen); [by left |].
    destruct IH as (lens & Hlens & Hall); [intros; apply Hreg; by right |].
    exists (len :: lens). simpl. rewrite Hlen. simpl. rewrite Hlens. simpl.
    split; [done |]. constructor; [| done]. by exists name.
Qed.

(** C8, as stated, fails when more dimensions are implied than [dims]
    names: [ndim_resize] is negative and [dims[:ndim_resize]] drops from
    the end instead of selecting nothing. *)
Lemma resize_from_dims_counterexample :
  resize_from_dims [DName "a"; DName "b"] 3 example_registry
    = Ok (-1, [5], [DName "a"; DName "b"])
  /\ ~ resize_spec [DName "a"; DName "b"] 3 example_registry
         (resize_from_dims [DName "a"; DName "b"] 3 example_registry).
Proof.
  assert (Hrun : resize_from_dims [DName "a"; DName "b"] 3 example_registry
                 = Ok (-1, [5], [DName "a"; DName "b"])) by by vm_compute.
  split; [exact Hrun |]. rewrite Hrun.
  intros (_ & _ & Hall). simpl in Hall. inversion Hall.
Qed.

(** An ellipsis in another position is outside the converted [dims]; the
    code then drops the last name and keeps the ellipsis. *)
Lemma resize_from_dims_inner_ellipsis :
  @resize_from_dims Z [DEllipsis; DName "a"] 1 ∅
  = Raise (KeyError {[DEllipsis]}).
Proof. by vm_compute. Qed.

(** C8 (amended): for [dims] whose ellipsis, if any, is the last element,
    and when no more dimensions are implied than the expanded [dims] has,
    [resize_from_dims] replaces the trailing ellipsis by [ndim_implied]
    placeholders, and returns [ndim_resize = len(dims) - ndim_implied]
    with the registered lengths of the leading [ndim_resize] dims; it
    raises a [KeyError] naming the unregistered ones exactly when there
    are some. *)
Theorem resize_from_dims_spec {L} (dims : list dim_elem) (ndim_implied : Z)
    (dim_lengths : gmap string L) :
  ellipsis_only_last dims ->
  ndim_implied <= Z.of_nat (length (expand_trailing_ellipsis dims ndim_implied)) ->
  resize_spec dims ndim_implied dim_lengths
    (resize_from_dims dims ndim_implied dim_lengths).
Proof.
  intros Hlast Hle. unfold resize_from_dims, resize_spec.
  rewrite slice_to_minus_one.
  assert (Hexp : (if bool_decide (DEllipsis ∈ dims)
                  then take (length dims - 1) dims
                       ++ replicate (Z.to_nat ndim_implied) DNone
                  else dims) = expand_trailing_ellipsis dims ndim_implied).
  { unfold expand_trailing_ellipsis.
    apply ellipsis_only_last_in in Hlast.
    by rewrite (bool_decide_ext _ _ Hlast). }
  rewrite Hexp. clear Hexp.
  set (expanded := expand_trailing_ellipsis dims ndim_implied) in *.
  set (ndim_resize := Z.of_nat (length expanded) - ndim_implied).
  rewrite slice_to_nonneg by (subst ndim_resize; lia).
  set (leading := take (Z.to_nat ndim_resize) expanded).
  simpl.
  assert (Hunknown : forall d,
             d ∈ (list_to_set leading ∖ registry_keys dim_lengths : gset dim_elem)
             <-> d ∈ leading /\ ~ registered dim_lengths d).
  { intros d. by rewrite elem_of_difference, elem_of_list_to_set, registry_keys_spec. }
  case_bool_decide as Hempty.
  - destruct (mapM_dim_length_of dim_lengths leading) as (lens & -> & Hall).
    { intros d Hd. destruct (registered_dec dim_lengths d) as [Hr|Hn]; [done |].
      exfalso. assert (Hin : d ∈ (∅ : gset dim_elem));
        [rewrite <- Hempty; by apply Hunknown | by apply not_elem_of_empty in Hin]. }
    simpl. done.
  - eexists. split; [reflexivity |]. split; [done | exact Hunknown].
Qed.

Lemma resize_from_dims_spec_witness :
  resize_spec [DName "a"; DName "b"; DEllipsis] 1 example_registry
    (resize_from_dims [DName "a"; DName "b"; DEllipsis] 1 example_registry).
Proof.
  apply (resize_from_dims_spec [DName "a"; DName "b"; DEllipsis] 1 example_registry).
  - intros [|[|[|i]]] Hi; simpl in Hi; try discriminate; reflexivity.
  - simpl. lia.
Defined.

(** The result of that call. *)
Lemma resize_from_dims_example :
  resize_from_dims [DName "a"; DName "b"; DEllipsis] 1 example_registry
  = Ok (2, [5; 7], [DName "a"; DName "b"; DNone]).
Proof. by vm_compute. Qed.

Lemma resize_from_dims_unknown_example :
  resize_from_dims [DName "a"; DName "c"; DEllipsis] 1 example_registry
  = Raise (KeyError {[DName "c"]}).
Proof. by vm_compute. Qed.

(** ** [shapes_broadcasting] on arrays without empty dimensions *)

Lemma column_agree (a b : Z) (ds : list Z) :
  a = 1 \/ b = 1 \/ a = b ->
  compatible_at (a :: b :: ds) = compatible_at (bcast_dim a b :: ds).
Proof.
  unfold compatible_at. intros Hab.
  destruct (decide (a = 1)) as [->|Ha].
  { by rewrite bcast_dim_1_l, (non1_one (b :: ds)). }
  destruct (decide (b = 1)) as [->|Hb].
  { by rewrite bcast_dim_1_r, (non1_other a (1 :: ds)), non1_one, non1_other. }
  assert (a = b) as <- by lia.
  rewrite bcast_dim_diag, (non1_other a (a :: ds)), !non1_other by done.
  simpl. by rewrite Z.eqb_refl.
Qed.

Lemma bcast_dim_positive (a b : Z) :
  0 < a -> 0 < b -> bcast_dim a b <> 0 -> a = 1 \/ b = 1 \/ a = b.
Proof.
  unfold bcast_dim.
  destruct (Z.eqb_spec a 1), (Z.eqb_spec b 1), (Z.eqb_spec a b); lia.
Qed.

(** When the step keeps no zero, the two shapes agree in every column. *)
Lemma bcast_step_agree (x y : list Z) (k : nat) (a b : Z) :
  all_positive x = true -> all_positive y = true ->
  all_nonzero (bcast_step x y) = true ->
  dim_from_end x k = Some a -> dim_from_end y k = Some b ->
  a = 1 \/ b = 1 \/ a = b.
Proof.
  rewrite !all_positive_spec, all_nonzero_spec. intros Hx Hy Hnz Ha Hb.
  apply bcast_dim_positive; eauto using dim_from_end_elem.
  intros H0. apply Hnz. apply (dim_from_end_elem _ k).
  by rewrite dim_from_end_bcast_step, Ha, Hb, H0.
Qed.

Lemma bcast_step_positive (x y : list Z) :
  all_positive x = true -> all_positive y = true ->
  all_nonzero (bcast_step x y) = true ->
  all_positive (bcast_step x y) = true.
Proof.
  intros Hx Hy Hnz. apply all_positive_spec. intros d Hd.
  apply elem_dim_from_end in Hd as [k Hk].
  rewrite dim_from_end_bcast_step in Hk.
  destruct (dim_from_end x k) as [a|] eqn:Ha, (dim_from_end y k) as [b|] eqn:Hb;
    try discriminate; injection Hk as <-.
  - pose proof (bcast_step_agree x y k a b Hx Hy Hnz Ha Hb) as Hab.
    rewrite all_positive_spec in Hx, Hy.
    apply dim_from_end_elem in Ha, Hb. apply Hx in Ha. apply Hy in Hb.
    destruct (bcast_dim_agree a b Hab) as [-> | ->]; done.
  - rewrite all_positive_spec in Hx. eauto using dim_from_end_elem.
  - rewrite all_positive_spec in Hy. eauto using dim_from_end_elem.
Qed.

Lemma forallb_pointwise {A} (f g : A -> bool) (l : list A) :
  (forall a, f a = g a) -> forallb f l = forallb g l.
Proof. intros Hfg. induction l as [|a l IH]; simpl; [done | by rewrite Hfg, IH]. Qed.

Lemma np_compatible_step_eq (x y : list Z) (rest : list (list Z)) :
  all_positive x = true -> all_positive y = true ->
  all_nonzero (bcast_step x y) = true ->
  np_compatible (x :: y :: rest) = np_compatible (bcast_step x y :: rest).
Proof.
  intros Hx Hy Hnz. unfold np_compatible. rewrite np_rank_step.
  apply forallb_pointwise. intros k.
  rewrite !dims_at_cons, dim_from_end_bcast_step.
  destruct (dim_from_end x k) as [a|] eqn:Ha, (dim_from_end y k) as [b|] eqn:Hb;
    try done.
  apply column_agree. by apply (bcast_step_agree x y k).
Qed.

Lemma bcast_fold_positive (ys : list (list Z)) (x : list Z) :
  all_positive x = true ->
  forallb all_positive ys = true ->
  bcast_fold x ys
  = if np_compatible (x :: ys) then Some (np_broadcast (x :: ys)) else None.
Proof.
  intros Hx Hys.
  destruct (np_compatible (x :: ys)) eqn:Hc; [by apply bcast_fold_numpy |].
  revert x Hx Hc. induction ys as [|y ys IH]; intros x Hx Hc.
  - exfalso. revert Hc. apply not_false_iff_true, np_compatible_spec.
    intros k _. rewrite dims_at_cons. unfold dims_at. simpl.
    destruct (dim_from_end x k) as [a|]; [| done].
    unfold compatible_at. rewrite non1_cons. by destruct (decide (a = 1)).
  - simpl in Hys. apply andb_true_iff in Hys as [Hy Hys]. simpl.
    destruct (all_nonzero (bcast_step x y)) eqn:Hnz; [| done].
    apply IH; [done | by apply bcast_step_positive |].
    by rewrite <- np_compatible_step_eq.
Qed.

Lemma shapes_broadcasting_ints_positive (shapes : list (list Z)) (flag : bool) :
  forallb all_positive shapes = true ->
  shapes_broadcasting (ints <$> shapes) flag
  = if np_compatible shapes then Ok (Some (np_broadcast shapes))
    else if flag then Raise (ValueError DoNotBroadcast) else Ok None.
Proof.
  destruct shapes as [|x ys]; [done |].
  intros [Hx Hys]%andb_true_iff.
  rewrite shapes_broadcasting_ints, bcast_fold_positive by done.
  by destruct (np_compatible (x :: ys)).
Qed.

(** X1: on shapes whose dimensions are all positive, [shapes_broadcasting]
    decides NumPy compatibility and computes the NumPy result: it returns
    the broadcast shape when the shapes are compatible, and otherwise
    [None] or, with [raise_exception=True], raises a [ValueError]. *)
Theorem shapes_broadcasting_positive (shapes : list (list Z)) (flag : bool) :
  forallb all_positive shapes = true ->
  shapes_broadcasting (ints <$> shapes) flag
  = if np_compatible shapes then Ok (Some (np_broadcast shapes))
    else if flag then Raise (ValueError DoNotBroadcast) else Ok None.
Proof. apply shapes_broadcasting_ints_positive. Qed.

Lemma shapes_broadcasting_positive_witness :
  shapes_broadcasting (ints <$> [[2; 1]; [8; 4; 3]]) true
  = Raise (ValueError DoNotBroadcast).
Proof.
  apply (shapes_broadcasting_positive [[2; 1]; [8; 4; 3]] true). reflexivity.
Defined.

Lemma bcast_loop_flag (x : list Z) (args : list (list raw_entry)) :
  bcast_loop true x args
  = match bcast_loop false x args with
    | Ok None => Raise (ValueError DoNotBroadcast)
    | r => r
    end.
Proof.
  revert x. induction args as [|arg args IH]; intros x; simpl; [done |].
  destruct (_check_shape_type arg) as [y|e]; simpl; [| done].
  destruct (all_nonzero (bcast_step x y)); [apply IH | done].
Qed.

Lemma shapes_broadcasting_strict_of_lenient (args : list (list raw_entry)) :
  shapes_broadcasting args true
  = match shapes_broadcasting args false with
    | Ok None => Raise (ValueError DoNotBroadcast)
    | r => r
    end.
Proof.
  destruct args as [|arg0 args]; simpl; [done |].
  destruct (_check_shape_type arg0) as [x|e]; simpl; [| done].
  apply bcast_loop_flag.
Qed.

(** X2: [raise_exception] only selects how a failure is reported: the
    strict call raises a [ValueError] where the lenient call returns
    [None], and agrees with it in every other case. *)
Theorem shapes_broadcasting_flag (args : list (list raw_entry)) :
  shapes_broadcasting args true
  = match shapes_broadcasting args false with
    | Ok None => Raise (ValueError DoNotBroadcast)
    | r => r
    end.
Proof. apply shapes_broadcasting_strict_of_lenient. Qed.

(** ** What a returned shape looks like *)

Lemma bcast_dim_choice (a b : Z) :
  bcast_dim a b = a \/ bcast_dim a b = b \/ bcast_dim a b = 0.
Proof.
  unfold bcast_dim.
  destruct (Z.eqb_spec a 1), (Z.eqb_spec b 1), (Z.eqb_spec a b); auto.
Qed.

Lemma bcast_step_elem (x y : list Z) (d : Z) :
  d ∈ bcast_step x y -> d ∈ x \/ d ∈ y \/ d = 0.
Proof.
  intros [k Hk]%elem_dim_from_end. rewrite dim_from_end_bcast_step in Hk.
  destruct (dim_from_end x k) as [a|] eqn:Ha, (dim_from_end y k) as [b|] eqn:Hb;
    try discriminate; injection Hk as <-.
  - apply dim_from_end_elem in Ha, Hb.
    destruct (bcast_dim_choice a b) as [-> | [-> | ->]]; auto.
  - left. eauto using dim_from_end_elem.
  - right; left. eauto using dim_from_end_elem.
Qed.

Lemma bcast_loop_result (flag : bool) (args : list (list raw_entry))
    (x r : list Z) :
  bcast_loop flag x args = Ok (Some r) ->
  exists ys, mapM _check_shape_type args = Ok ys
    /\ length r = np_rank (x :: ys)
    /\ (args <> [] -> all_nonzero r = true)
    /\ (forall d, d ∈ r -> exists s, s ∈ x :: ys /\ d ∈ s).
Proof.
  revert x. induction args as [|arg args IH]; intros x; simpl.
  - intros [= <-]. exists []. split; [done |].
    split; [rewrite np_rank_cons; change (np_rank []) with 0%nat; lia |].
    split; [done |].
    intros d Hd. exists x. split; [by left | done].
  - destruct (_check_shape_type arg) as [y|e]; simpl; [| done].
    destruct (all_nonzero (bcast_step x y)) eqn:Hnz; [| by destruct flag].
    intros Hloop. destruct (IH _ Hloop) as (ys & -> & Hlen & Hnon & Hdims).
    exists (y :: ys). split; [done |]. split; [by rewrite <- np_rank_step |].
    split.
    + intros _. destruct args as [|arg' args]; [| by apply Hnon].
      simpl in Hloop. by injection Hloop as <-.
    + intros d Hd. destruct (Hdims d Hd) as (s & Hs & Hds).
      apply elem_of_cons in Hs as [-> | Hs].
      * apply bcast_step_elem in Hds as [Hx | [Hy | ->]].
        -- exists x. split; [by left | done].
        -- exists y. split; [right; by left | done].
        -- exfalso.
           assert (Hr : all_nonzero r = true).
           { destruct args as [|arg' args];
               [simpl in Hloop; by injection Hloop as <- | by apply Hnon]. }
           by apply all_nonzero_spec in Hr.
      * exists s. split; [right; by right | done].
Qed.

(** X3: a shape that [shapes_broadcasting] returns for shapes of arrays
    has the largest rank among them; each of its dimensions is a
    dimension of one of them; and when there are two or more shapes it
    has no zero dimension. *)
Theorem shapes_broadcasting_result (shapes : list (list Z)) (flag : bool)
    (r : list Z) :
  forallb array_shape shapes = true ->
  shapes_broadcasting (ints <$> shapes) flag = Ok (Some r) ->
  length r = np_rank shapes
  /\ (forall d, d ∈ r -> exists s, s ∈ shapes /\ d ∈ s)
  /\ ((2 <= length shapes)%nat -> 0 ∉ r).
Proof.
  intros _. destruct shapes as [|x ys].
  - intros [= <-]. split; [done |]. split.
    + intros d Hd. by apply elem_of_nil in Hd.
    + intros _. apply not_elem_of_nil.
  - rewrite fmap_cons. simpl. rewrite check_shape_type_ints. simpl.
    intros (ys' & Hcheck & Hlen & Hnon & Hdims)%bcast_loop_result.
    rewrite mapM_check_ints in Hcheck. injection Hcheck as <-.
    split; [done |]. split; [done |].
    intros Hargs. apply all_nonzero_spec, Hnon.
    destruct ys; [simpl in Hargs; lia | done].
Qed.

Lemma shapes_broadcasting_result_witness :
  length [5; 3] = np_rank [[5; 1]; [3]]
  /\ (forall d, d ∈ [5; 3] -> exists s, s ∈ [[5; 1]; [3]] /\ d ∈ s)
  /\ (le 2 (length [[5; 1]; [3]]) -> 0 ∉ [5; 3]).
Proof.
  apply (shapes_broadcasting_result [[5; 1]; [3]] false [5; 3]); reflexivity.
Defined.

(** ** Zero dimensions *)

Lemma bcast_dim_0_l (j : Z) : bcast_dim 0 j = 0.
Proof.
  unfold bcast_dim. change (0 =? 1) with false.
  by destruct (j =? 1), (0 =? j).
Qed.

Lemma bcast_step_zero (x y : list Z) :
  0 ∈ x \/ 0 ∈ y -> all_nonzero (bcast_step x y) = false.
Proof.
  intros H0. apply not_true_is_false. rewrite all_nonzero_spec.
  intros Hnot. apply Hnot.
  assert (Hx : forall u v, 0 ∈ u -> 0 ∈ bcast_step u v).
  { intros u v [k Hk]%elem_dim_from_end. apply (dim_from_end_elem _ k).
    rewrite dim_from_end_bcast_step, Hk.
    destruct (dim_from_end v k); [by rewrite bcast_dim_0_l | done]. }
  destruct H0 as [H0|H0]; [by apply Hx | rewrite bcast_step_comm; by apply Hx].
Qed.

Lemma bcast_fold_zero (ys : list (list Z)) (x : list Z) :
  ys <> [] ->
  (exists s, s ∈ x :: ys /\ 0 ∈ s) ->
  bcast_fold x ys = None.
Proof.
  revert x. induction ys as [|y ys IH]; intros x Hne (s & Hs & H0); [done |].
  simpl. destruct (all_nonzero (bcast_step x y)) eqn:Hnz; [| done].
  apply elem_of_cons in Hs as [-> | Hs].
  { by rewrite bcast_step_zero in Hnz by auto. }
  apply elem_of_cons in Hs as [-> | Hs].
  { by rewrite bcast_step_zero in Hnz by auto. }
  apply IH.
  - intros ->. by apply elem_of_nil in Hs.
  - exists s. split; [by right | done].
Qed.

(** X4: two or more integer shapes never broadcast when one of them has a
    zero dimension, whatever the other shapes are: the result is [None],
    or a [ValueError] with [raise_exception=True]. A single shape is
    returned as it is. *)
Theorem shapes_broadcasting_zero (shapes : list (list Z)) (flag : bool) :
  (2 <= length shapes)%nat ->
  (exists s, s ∈ shapes /\ 0 ∈ s) ->
  shapes_broadcasting (ints <$> shapes) flag
  = if flag then Raise (ValueError DoNotBroadcast) else Ok None.
Proof.
  destruct shapes as [|x [|y ys]]; simpl; try lia. intros _ Hz.
  change (shapes_broadcasting (ints <$> x :: y :: ys) flag
          = if flag then Raise (ValueError DoNotBroadcast) else Ok None).
  by rewrite shapes_broadcasting_ints, bcast_fold_zero.
Qed.

Lemma shapes_broadcasting_zero_witness :
  shapes_broadcasting (ints <$> [[3; 0]; [3; 0]]) false = Ok None.
Proof.
  apply (shapes_broadcasting_zero [[3; 0]; [3; 0]] false); [simpl; lia |].
  exists [3; 0]. split; [by left |]. right. by left.
Defined.

(** ** The order of the arguments *)

Lemma check_shape_type_raises (shape : list raw_entry) (e : exn) :
  _check_shape_type shape = Raise e -> e = TypeError.
Proof.
  unfold _check_shape_type. destruct (check_entries shape); congruence.
Qed.

(** X5: two arguments may be swapped: the exception or result is the same. *)
Theorem shapes_broadcasting_swap (a b : list raw_entry) (flag : bool) :
  shapes_broadcasting [a; b] flag = shapes_broadcasting [b; a] flag.
Proof.
  simpl.
  destruct (_check_shape_type a) as [x|ea] eqn:Ha,
           (_check_shape_type b) as [y|eb] eqn:Hb; simpl; try done.
  - by rewrite bcast_step_comm.
  - apply check_shape_type_raises in Ha, Hb. congruence.
Qed.

Lemma non1_elem (ds : list Z) (d : Z) : d ∈ non1 ds <-> d ∈ ds /\ d <> 1.
Proof. unfold non1. rewrite list_elem_of_filter. tauto. Qed.

Lemma compatible_at_spec (ds : list Z) :
  compatible_at ds = true
  <-> forall a b, a ∈ ds -> b ∈ ds -> a <> 1 -> b <> 1 -> a = b.
Proof.
  unfold compatible_at. split.
  - intros Hc a b Ha Hb Ha1 Hb1.
    assert (Ha' : a ∈ non1 ds) by by apply non1_elem.
    assert (Hb' : b ∈ non1 ds) by by apply non1_elem.
    destruct (non1 ds) as [|d ds']; [by apply elem_of_nil in Ha' |].
    rewrite forallb_forall in Hc.
    assert (Heq : forall c, c ∈ d :: ds' -> c = d).
    { intros c [-> | Hc']%elem_of_cons; [done |].
      apply list_elem_of_In, Hc, Z.eqb_eq in Hc'. done. }
    by rewrite (Heq a), (Heq b).
  - intros Hall. destruct (non1 ds) as [|d ds'] eqn:Hn; [done |].
    apply forallb_forall. intros c Hc%list_elem_of_In. apply Z.eqb_eq.
    assert (Hd : d ∈ non1 ds) by (rewrite Hn; by left).
    assert (Hc' : c ∈ non1 ds) by (rewrite Hn; by right).
    apply non1_elem in Hd as [Hd Hd1]. apply non1_elem in Hc' as [Hc' Hc1].
    by apply Hall.
Qed.

Lemma foldr_max_const (d : Z) (ds : list Z) :
  (forall c, c ∈ ds -> c = d) -> foldr Z.max d ds = d.
Proof.
  induction ds as [|c ds IH]; intros Hall; simpl; [done |].
  rewrite IH by (intros; apply Hall; by right).
  rewrite (Hall c) by by left. lia.
Qed.

(** In a column that agrees, the result is its dimension that is not 1. *)
Lemma max_non1_agree (ds : list Z) (d : Z) :
  compatible_at ds = true -> d ∈ ds -> d <> 1 -> max_non1 ds = d.
Proof.
  intros Hc Hd Hd1. rewrite compatible_at_spec in Hc. unfold max_non1.
  assert (Hd' : d ∈ non1 ds) by by apply non1_elem.
  destruct (non1 ds) as [|d0 ds'] eqn:Hn; [by apply elem_of_nil in Hd' |].
  assert (Heq : forall c, c ∈ d0 :: ds' -> c = d).
  { intros c Hc'. rewrite <- Hn in Hc'. apply non1_elem in Hc' as [Hc' Hc1].
    by apply Hc. }
  rewrite (Heq d0) by by left.
  apply foldr_max_const. intros c Hc'. apply Heq. by right.
Qed.

Lemma max_non1_ones (ds : list Z) :
  (forall d, d ∈ ds -> d = 1) -> max_non1 ds = 1.
Proof.
  intros Hall. unfold max_non1.
  destruct (non1 ds) as [|d ds'] eqn:Hn; [done |].
  assert (Hd : d ∈ non1 ds) by (rewrite Hn; by left).
  apply non1_elem in Hd as [Hd Hd1]. by apply Hall in Hd.
Qed.

Lemma compatible_at_perm (ds ds' : list Z) :
  ds ≡ₚ ds' -> compatible_at ds = compatible_at ds'.
Proof.
  intros Hp. apply eq_true_iff_eq. rewrite !compatible_at_spec.
  split; intros H a b Ha Hb.
  - apply H; by rewrite Hp.
  - apply H; by rewrite <- Hp.
Qed.

Lemma max_non1_perm (ds ds' : list Z) :
  ds ≡ₚ ds' -> compatible_at ds = true -> max_non1 ds = max_non1 ds'.
Proof.
  intros Hp Hc.
  assert (Hc' : compatible_at ds' = true) by by rewrite <- (compatible_at_perm ds).
  destruct (non1 ds) as [|d dn] eqn:Hn.
  - assert (Hall : forall d, d ∈ ds -> d = 1).
    { intros d Hd. destruct (decide (d = 1)) as [|Hd1]; [done |].
      assert (d ∈ non1 ds) as Hin by by apply non1_elem.
      rewrite Hn in Hin. by apply elem_of_nil in Hin. }
    rewrite !max_non1_ones; [done | | done].
    intros d Hd. apply Hall. by rewrite Hp.
  - assert (Hd : d ∈ non1 ds) by (rewrite Hn; by left).
    apply non1_elem in Hd as [Hd Hd1].
    rewrite (max_non1_agree ds d), (max_non1_agree ds' d); try done.
    by rewrite <- Hp.
Qed.

Lemma np_rank_perm (shapes shapes' : list (list Z)) :
  shapes ≡ₚ shapes' -> np_rank shapes = np_rank shapes'.
Proof.
  induction 1 as [|s l l' _ IH|s t l|l1 l2 l3 _ IH1 _ IH2].
  - done.
  - by rewrite !np_rank_cons, IH.
  - rewrite !np_rank_cons. lia.
  - congruence.
Qed.

Lemma dims_at_perm (shapes shapes' : list (list Z)) (k : nat) :
  shapes ≡ₚ shapes' -> dims_at shapes k ≡ₚ dims_at shapes' k.
Proof. intros Hp. unfold dims_at. by rewrite Hp. Qed.

Lemma np_compatible_perm (shapes shapes' : list (list Z)) :
  shapes ≡ₚ shapes' -> np_compatible shapes = np_compatible shapes'.
Proof.
  intros Hp. unfold np_compatible. rewrite (np_rank_perm _ _ Hp).
  apply forallb_pointwise. intros k.
  by apply compatible_at_perm, dims_at_perm.
Qed.

Lemma np_broadcast_perm (shapes shapes' : list (list Z)) :
  shapes ≡ₚ shapes' -> np_compatible shapes = true ->
  np_broadcast shapes = np_broadcast shapes'.
Proof.
  intros Hp Hc. unfold np_broadcast. rewrite <- (np_rank_perm _ _ Hp). f_equal.
  apply list_fmap_ext. intros i k Hk. apply lookup_seq in Hk as [-> Hlt].
  apply max_non1_perm; [by apply dims_at_perm |].
  by apply np_compatible_spec.
Qed.

(** X6: for arrays without empty dimensions the order of the arguments
    does not matter: any rearrangement of the shapes gives the same
    result or the same failure. *)
Theorem shapes_broadcasting_perm (shapes shapes' : list (list Z)) (flag : bool) :
  forallb all_positive shapes = true ->
  shapes ≡ₚ shapes' ->
  shapes_broadcasting (ints <$> shapes) flag
  = shapes_broadcasting (ints <$> shapes') flag.
Proof.
  intros Hpos Hp.
  assert (Hpos' : forallb all_positive shapes' = true).
  { rewrite forallb_forall in *. intros s Hs%list_elem_of_In.
    apply Hpos, list_elem_of_In. by rewrite Hp. }
  rewrite !shapes_broadcasting_ints_positive by done.
  rewrite <- (np_compatible_perm _ _ Hp).
  destruct (np_compatible shapes) eqn:Hc; [| done].
  by rewrite (np_broadcast_perm _ _ Hp Hc).
Qed.

Lemma shapes_broadcasting_perm_witness :
  shapes_broadcasting (ints <$> [[5]; [4; 1]; [7; 1; 1]]) false
  = shapes_broadcasting (ints <$> [[7; 1; 1]; [5]; [4; 1]]) false.
Proof.
  apply (shapes_broadcasting_perm [[5]; [4; 1]; [7; 1; 1]]
           [[7; 1; 1]; [5]; [4; 1]] false); [reflexivity |].
  symmetry. apply (Permutation_cons_append [[5]; [4; 1]] [7; 1; 1]).
Defined.

(** ** What [_check_shape_type] accepts *)

Lemma check_entries_Some (shape : list raw_entry) (out : list Z) :
  check_entries shape = Some out <-> Forall2 integral_value shape out.
Proof.
  revert out. induction shape as [|e shape IH]; intros out; simpl.
  - split; [intros [= <-]; constructor | by intros ->%Forall2_nil_inv_l].
  - split.
    + destruct (check_entry e) as [o|] eqn:He; [| discriminate].
      destruct (check_entries shape) as [out'|]; [| discriminate].
      intros [= <-]. constructor; [by apply check_entry_integral | by apply IH].
    + intros (o & out' & Ho & Hout & ->)%Forall2_cons_inv_l.
      apply check_entry_integral in Ho. apply IH in Hout.
      by rewrite Ho, Hout.
Qed.

(** X7: when [np.atleast_1d] makes the array [a] of the argument,
    [_check_shape_type] returns the tuple of the integer values of the
    entries of [a] exactly when every entry of [a] is an integer or a
    float with a whole value; otherwise, and only then, it raises, and
    what it raises is always a [TypeError]. An array of integers is
    returned entry by entry. *)
Theorem check_shape_type_spec {Arg} (atleast_1d : Arg -> list raw_entry)
    (shape : Arg) :
  (forall out, check_shape_type_of atleast_1d shape = Ok out
               <-> Forall2 integral_value (atleast_1d shape) out)
  /\ (forall e, check_shape_type_of atleast_1d shape = Raise e
                <-> e = TypeError /\ malformed (atleast_1d shape))
  /\ (forall s, check_shape_type_of ints s = Ok s).
Proof.
  unfold check_shape_type_of. split; [| split].
  - intros out. rewrite <- check_entries_Some. unfold _check_shape_type.
    destruct (check_entries (atleast_1d shape)); split; congruence.
  - intros e. rewrite check_shape_type_malformed. split.
    + intros He. pose proof (check_shape_type_raises _ _ He). by subst e.
    + by intros [-> ?].
  - intros s. apply check_shape_type_ints.
Qed.

Lemma check_shape_type_spec_witness :
  check_shape_type_of (fun a : list raw_entry => a) [RFloat (4 # 2); RInt 3]
  = Ok [2; 3].
Proof.
  apply (proj2 (proj1 (check_shape_type_spec (fun a : list raw_entry => a)
                         [RFloat (4 # 2); RInt 3]) [2; 3])).
  repeat constructor.
Defined.

(** ** [broadcast_dist_samples_shape]: failures and the full result *)

Lemma mapM_check_malformed (shapes : list (list raw_entry)) :
  (exists s, s ∈ shapes /\ malformed s) ->
  mapM _check_shape_type shapes = Raise TypeError.
Proof.
  induction shapes as [|s shapes IH]; intros (s' & Hs & Hbad).
  - by apply elem_of_nil in Hs.
  - simpl. destruct (_check_shape_type s) as [out|e] eqn:Hcheck; simpl.
    + apply elem_of_cons in Hs as [-> | Hs].
      * apply check_shape_type_malformed in Hbad. congruence.
      * rewrite IH; [done | eauto].
    + by apply check_shape_type_raises in Hcheck as ->.
Qed.

(** X8: with a [size], every shape is type-checked before any
    broadcasting: one malformed shape anywhere in the list makes
    [broadcast_dist_samples_shape] raise a [TypeError], even if other
    shapes do not broadcast. *)
Theorem broadcast_dist_samples_shape_malformed (shapes : list (list raw_entry))
    (size : size_arg) :
  size <> SizeNone ->
  (exists s, s ∈ shapes /\ malformed s) ->
  broadcast_dist_samples_shape shapes size = Raise TypeError.
Proof.
  intros Hsize Hbad. unfold broadcast_dist_samples_shape.
  destruct size; [done | |]; by rewrite mapM_check_malformed.
Qed.

Lemma broadcast_dist_samples_shape_malformed_witness :
  broadcast_dist_samples_shape [ints [3]; ints [4]; [RFloat (5 # 2)]] (SizeInt 100)
  = Raise TypeError.
Proof.
  apply (broadcast_dist_samples_shape_malformed
           [ints [3]; ints [4]; [RFloat (5 # 2)]] (SizeInt 100)); [discriminate |].
  exists [RFloat (5 # 2)]. split.
  - apply elem_of_cons; right. apply elem_of_cons; right. by left.
  - exists (RFloat (5 # 2)). split; [by left |].
    intros z Hz. simpl in Hz. unfold Qeq in Hz. simpl in Hz. lia.
Defined.

Lemma strip_size_nil (s : list Z) : strip_size [] s = s.
Proof. by destruct s. Qed.

Lemma strip_size_fmap_nil (shapes : list (list Z)) :
  strip_size [] <$> shapes = shapes.
Proof.
  induction shapes as [|s shapes IH]; [done |].
  by rewrite fmap_cons, strip_size_nil, IH.
Qed.

Lemma all_positive_drop (n : nat) (s : list Z) :
  all_positive s = true -> all_positive (drop n s) = true.
Proof.
  rewrite !all_positive_spec. intros Hs d Hd. apply Hs.
  rewrite <- (take_drop n s). apply elem_of_app. by right.
Qed.

Lemma all_positive_strip (sz : list Z) (shapes : list (list Z)) :
  forallb all_positive shapes = true ->
  forallb all_positive (strip_size sz <$> shapes) = true.
Proof.
  induction shapes as [|s shapes IH]; [done |].
  rewrite fmap_cons. simpl. intros [Hs Hshapes]%andb_true_iff.
  rewrite IH by done. rewrite andb_true_r. unfold strip_size.
  destruct (has_size_prefix sz s); [by apply all_positive_drop | done].
Qed.

Lemma broadcast_dist_samples_shape_sized_fail (size : size_arg)
    (shapes : list (list Z)) (msg : value_error) :
  size <> SizeNone ->
  shapes_broadcasting (ints <$> (strip_size (to_tuple size) <$> shapes)) true
    = Raise (ValueError msg) ->
  broadcast_dist_samples_shape (ints <$> shapes) size
  = Raise (ValueError CannotBroadcast).
Proof.
  intros Hsize Hb. unfold broadcast_dist_samples_shape.
  destruct size; [done | |]; rewrite mapM_check_ints; cbn [bind]; cbv zeta;
    change (map ints (map ?f shapes)) with (ints <$> (f <$> shapes));
    by rewrite Hb.
Qed.

Lemma existsb_prefix_nil (shapes : list (list Z)) :
  shapes <> [] -> existsb (has_size_prefix []) shapes = true.
Proof. destruct shapes as [|s shapes]; [done |]. intros _. simpl. done. Qed.

(** X9: for shapes and a [size] without empty dimensions,
    [broadcast_dist_samples_shape] is decided by the shapes without their
    [size] prefix: when those are NumPy-compatible the result is their
    NumPy broadcast, behind [size] if some shape carries the prefix;
    otherwise a [ValueError] is raised. Without a [size] nothing is
    stripped and the result is the NumPy broadcast of the shapes. *)
Theorem broadcast_dist_samples_shape_positive (shapes : list (list Z))
    (size : size_arg) :
  forallb all_positive shapes = true ->
  all_nonzero (to_tuple size) = true ->
  broadcast_dist_samples_shape (ints <$> shapes) size
  = let sz := to_tuple size in
    let sp_shapes := strip_size sz <$> shapes in
    if np_compatible sp_shapes then
      Ok (if existsb (has_size_prefix sz) shapes
          then sz ++ np_broadcast sp_shapes else np_broadcast sp_shapes)
    else Raise (ValueError CannotBroadcast).
Proof.
  intros Hpos Hsz. simpl.
  pose proof (shapes_broadcasting_ints_positive
                (strip_size (to_tuple size) <$> shapes) true
                (all_positive_strip _ _ Hpos)) as Hb.
  assert (size = SizeNone \/ size <> SizeNone) as [-> | Hsize]
    by (destruct size; auto).
  - rewrite broadcast_dist_samples_shape_unsized. simpl.
    rewrite strip_size_fmap_nil, shapes_broadcasting_ints_positive by done.
    destruct (np_compatible shapes); [| done].
    by destruct (existsb (has_size_prefix []) shapes).
  - destruct (np_compatible (strip_size (to_tuple size) <$> shapes)).
    + by apply broadcast_dist_samples_shape_sized.
    + by apply (broadcast_dist_samples_shape_sized_fail _ _ DoNotBroadcast).
Qed.

Lemma broadcast_dist_samples_shape_positive_witness :
  broadcast_dist_samples_shape (ints <$> [[100; 3]; [100; 2; 1]; [7]]) (SizeInt 100)
  = Raise (ValueError CannotBroadcast).
Proof.
  apply (broadcast_dist_samples_shape_positive
           [[100; 3]; [100; 2; 1]; [7]] (SizeInt 100)); reflexivity.
Defined.

(** ** What the converters return *)

Lemma ellipsis_only_last_not_before (dims : list dim_elem) :
  ellipsis_only_last dims <-> ~ before_last DEllipsis dims.
Proof.
  unfold ellipsis_only_last, before_last. split.
  - intros Hlast (i & Hlt & Hi). apply Hlast in Hi. lia.
  - intros Hnot i Hi. pose proof (lookup_lt_Some _ _ _ Hi) as Hlt.
    destruct (decide (S i = length dims)) as [|Hne]; [done |].
    exfalso. apply Hnot. exists i. split; [lia | done].
Qed.

(** X10: a [dims] that [convert_dims] returns has its ellipsis, if any, in
    the last position only, and converting it again changes nothing. *)
Theorem convert_dims_result (a : dims_arg) (dims : list dim_elem) :
  convert_dims a = Ok (Some dims) ->
  ellipsis_only_last dims /\ convert_dims (DimsSeq dims) = Ok (Some dims).
Proof.
  intros Ha. pose proof (convert_dims_ellipsis_only_last a dims Ha) as Hlast.
  split; [done |]. by apply convert_dims_seq_ok, ellipsis_only_last_not_before.
Qed.

Lemma convert_dims_result_witness :
  ellipsis_only_last [DName "city"]
  /\ convert_dims (DimsSeq [DName "city"]) = Ok (Some [DName "city"]).
Proof.
  apply (convert_dims_result (DimsStr "city") [DName "city"]). reflexivity.
Defined.

Lemma convert_shape_seq_ok (shape : list shape_elem) :
  ~ before_last SEllipsis shape ->
  convert_shape (ShapeSeq shape) = Ok (Some shape).
Proof.
  rewrite convert_shape_seq, before_last_take, <- any_ellipsis_shape_spec.
  by destruct (any_ellipsis_shape _).
Qed.

Lemma before_last_singleton {A} (e a : A) : ~ before_last e [a].
Proof. intros (i & Hlt & _). simpl in Hlt. lia. Qed.

Lemma before_last_elem {A} (e : A) (l : list A) : before_last e l -> e ∈ l.
Proof. intros (i & _ & Hi). apply list_elem_of_lookup. eauto. Qed.

(** X11: a [shape] that [convert_shape] returns has no ellipsis before its
    last position, and converting it again changes nothing. *)
Theorem convert_shape_result (a : shape_arg) (shape : list shape_elem) :
  convert_shape a = Ok (Some shape) ->
  ~ before_last SEllipsis shape
  /\ convert_shape (ShapeSeq shape) = Ok (Some shape).
Proof.
  intros Ha.
  assert (Hnot : ~ before_last SEllipsis shape).
  { destruct a as [|n|name|l|]; try discriminate.
    - injection Ha as <-. apply before_last_singleton.
    - injection Ha as <-. apply before_last_singleton.
    - rewrite convert_shape_seq in Ha.
      destruct (any_ellipsis_shape _) eqn:Hany; [discriminate |].
      injection Ha as <-.
      rewrite before_last_take, <- any_ellipsis_shape_spec. congruence. }
  split; [done | by apply convert_shape_seq_ok].
Qed.

Lemma convert_shape_result_witness :
  ~ before_last SEllipsis [SInt 3; SEllipsis]
  /\ convert_shape (ShapeSeq [SInt 3; SEllipsis]) = Ok (Some [SInt 3; SEllipsis]).
Proof.
  apply (convert_shape_result (ShapeSeq [SInt 3; SEllipsis]) [SInt 3; SEllipsis]).
  reflexivity.
Defined.

(** X12: a [size] that [convert_size] returns contains no ellipsis;
    converting it again changes nothing, and it is also accepted
    unchanged as a [shape]. *)
Theorem convert_size_result (a : shape_arg) (size : list shape_elem) :
  convert_size a = Ok (Some size) ->
  (SEllipsis ∉ size)
  /\ convert_size (ShapeSeq size) = Ok (Some size)
  /\ convert_shape (ShapeSeq size) = Ok (Some size).
Proof.
  intros Ha.
  assert (Hnot : SEllipsis ∉ size).
  { destruct a as [|n|name|l|]; try discriminate.
    - injection Ha as <-. intros [=]%list_elem_of_singleton.
    - injection Ha as <-. intros [=]%list_elem_of_singleton.
    - unfold convert_size in Ha. simpl in Ha.
      case_bool_decide; [discriminate | by injection Ha as <-]. }
  split; [done |]. split.
  - unfold convert_size. simpl. by rewrite bool_decide_eq_false_2.
  - apply convert_shape_seq_ok. by intros ?%before_last_elem.
Qed.

Lemma convert_size_result_witness :
  (SEllipsis ∉ [SInt 7])
  /\ convert_size (ShapeSeq [SInt 7]) = Ok (Some [SInt 7])
  /\ convert_shape (ShapeSeq [SInt 7]) = Ok (Some [SInt 7]).
Proof.
  apply (convert_size_result (ShapeInt 7) [SInt 7]). reflexivity.
Defined.

(** ** [resize_from_dims]: nothing to resize, and consistency *)

Lemma slice_to_zero {A} (l : list A) : slice_to l 0 = [].
Proof. reflexivity. Qed.

(** X13: when [dims] has no ellipsis and names exactly the implied
    dimensions, nothing is resized and the registry is not consulted:
    no [KeyError] is raised even for names the model does not know. *)
Theorem resize_from_dims_nothing {L} (dims : list dim_elem) (ndim_implied : Z)
    (dim_lengths : gmap string L) :
  DEllipsis ∉ dims ->
  Z.of_nat (length dims) = ndim_implied ->
  resize_from_dims dims ndim_implied dim_lengths = Ok (0, [], dims).
Proof.
  intros Hno Hlen. unfold resize_from_dims.
  rewrite (bool_decide_eq_false_2 (DEllipsis ∈ dims)) by done. cbv zeta.
  replace (Z.of_nat (length dims) - ndim_implied) with 0 by lia.
  rewrite slice_to_zero.
  rewrite bool_decide_eq_true_2; [reflexivity |].
  apply set_eq. intros d. rewrite elem_of_difference, elem_of_list_to_set, elem_of_nil.
  split; [tauto | by intros ?%not_elem_of_empty].
Qed.

Lemma resize_from_dims_nothing_witness :
  @resize_from_dims Z [DName "unknown"; DNone] 2 ∅
  = Ok (0, [], [DName "unknown"; DNone]).
Proof.
  apply (resize_from_dims_nothing [DName "unknown"; DNone] 2 ∅).
  - intros Hin. repeat (apply elem_of_cons in Hin as [Hin|Hin]; [discriminate |]).
    by apply elem_of_nil in Hin.
  - reflexivity.
Defined.

Lemma mapM_length {A B} (f : A -> result B) (l : list A) (out : list B) :
  mapM f l = Ok out -> length out = length l.
Proof.
  revert out. induction l as [|a l IH]; intros out; simpl.
  - by intros [= <-].
  - destruct (f a) as [b|e]; simpl; [| done].
    destruct (mapM f l) as [bs|e]; simpl; [| done].
    intros [= <-]. simpl. by rewrite (IH bs).
Qed.

Lemma ellipsis_only_last_take (dims : list dim_elem) :
  ellipsis_only_last dims -> DEllipsis ∉ take (length dims - 1) dims.
Proof.
  intros Hlast (i & Hi)%list_elem_of_lookup.
  apply lookup_take_Some in Hi as [Hi Hlt]. apply Hlast in Hi. lia.
Qed.

(** X14: when [resize_from_dims] returns for a [dims] whose ellipsis, if
    any, is last, the returned [dims] contains no ellipsis and has
    [ndim_resize + ndim_implied] entries; with a trailing ellipsis and no
    negative [ndim_implied], [ndim_resize] is the number of names before
    the ellipsis; and whenever [ndim_resize] is not negative,
    [resize_shape] has exactly [ndim_resize] entries. *)
Theorem resize_from_dims_consistent {L} (dims : list dim_elem) (ndim_implied : Z)
    (dim_lengths : gmap string L) (ndim_resize : Z) (resize_shape : list L)
    (out_dims : list dim_elem) :
  ellipsis_only_last dims ->
  0 <= ndim_implied ->
  resize_from_dims dims ndim_implied dim_lengths
    = Ok (ndim_resize, resize_shape, out_dims) ->
  (DEllipsis ∉ out_dims)
  /\ Z.of_nat (length out_dims) = ndim_resize + ndim_implied
  /\ (DEllipsis ∈ dims -> ndim_resize = Z.of_nat (length dims) - 1)
  /\ (0 <= ndim_resize -> Z.of_nat (length resize_shape) = ndim_resize).
Proof.
  intros Hlast Hn. unfold resize_from_dims. rewrite slice_to_minus_one.
  set (expanded := if bool_decide (DEllipsis ∈ dims)
                   then take (length dims - 1) dims
                        ++ replicate (Z.to_nat ndim_implied) DNone
                   else dims).
  case_bool_decide as Hempty; [| done].
  destruct (mapM _ _) as [lens|e] eqn:Hlens; simpl; [| done].
  intros [= <- <- <-]. apply mapM_length in Hlens.
  assert (Hout : DEllipsis ∉ expanded).
  { subst expanded. case_bool_decide as Hin; [| done].
    rewrite not_elem_of_app. split; [by apply ellipsis_only_last_take |].
    by intros [[=] _]%elem_of_replicate. }
  split; [done |]. split; [lia |]. split.
  - intros Hin. subst expanded. rewrite bool_decide_eq_true_2 by done.
    rewrite length_app, length_take, length_replicate.
    apply list_elem_of_lookup in Hin as [i Hi]. apply lookup_lt_Some in Hi. lia.
  - intros Hres. rewrite Hlens, slice_to_nonneg by done.
    rewrite length_take. lia.
Qed.

Lemma resize_from_dims_consistent_witness :
  (DEllipsis ∉ [DName "a"; DName "b"; DNone])
  /\ Z.of_nat (length [DName "a"; DName "b"; DNone]) = 2 + 1
  /\ (DEllipsis ∈ [DName "a"; DName "b"; DEllipsis]
      -> 2 = Z.of_nat (length [DName "a"; DName "b"; DEllipsis]) - 1)
  /\ (0 <= 2 -> Z.of_nat (length [5; 7]) = 2).
Proof.
  apply (resize_from_dims_consistent [DName "a"; DName "b"; DEllipsis] 1
           example_registry 2 [5; 7] [DName "a"; DName "b"; DNone]).
  - intros [|[|[|i]]] Hi; simpl in Hi; try discriminate; reflexivity.
  - lia.
  - by vm_compute.
Defined.

(** ** [find_size]: what the outputs have in common *)

(** X15: the outputs of [find_size] fit together: [create_size],
    [ndim_expected] and [ndim_batch] are all [None] or all given; when
    given, [ndim_expected = ndim_batch + ndim_supp]; and for a support
    that is not negative and not larger than the expected rank,
    [create_size] has [ndim_batch] entries. *)
Theorem find_size_consistent (shape size : option (list shape_elem))
    (supp : option Z) (r : find_size_result) :
  find_size shape size supp = Ok r -> find_size_outputs_fit supp r.
Proof.
  unfold find_size, find_size_outputs_fit.
  destruct shape as [shape|]; [case_bool_decide | destruct size as [size|]];
    destruct supp as [n|]; simpl; intros [= <-]; simpl; auto; right.
  - eexists _, _, _, _. repeat (split; [reflexivity |]). split; [lia |].
    intros Hn. rewrite slice_to_nonneg, length_take by lia. lia.
  - eexists _, _, _, _. repeat (split; [reflexivity |]). split; [lia |].
    intros Hn. lia.
Qed.

Lemma find_size_consistent_witness :
  find_size_outputs_fit (Some 1)
    (FindSize (Some [SInt 4; SInt 2]) (Some 3) (Some 2) (Some 1)).
Proof.
  apply (find_size_consistent None (Some [SInt 4; SInt 2]) (Some 1)).
  reflexivity.
Defined.

(** ** [maybe_resize] with a [shape] *)

Section MaybeResizeShape.
Context {RV Params : Type}.
Context (ndim : RV -> Z).
Context (change_rv_size : RV -> list shape_elem -> RV).
Context (rv_op : Params -> RV).

(** X16: with a [shape] without ellipsis, a variable that [maybe_resize]
    returns has the expected rank: either it had it already, or it was
    recreated and expanded to it; any other outcome is an exception. *)
Theorem maybe_resize_rank (rv_out : RV) (dist_params : Params)
    (expected : Z) (batch : option Z) (supp : Z)
    (shape : list shape_elem) (size : option (list shape_elem))
    (rv' : RV) (warnings : list shape_warning) :
  SEllipsis ∉ shape ->
  maybe_resize ndim change_rv_size rv_op rv_out dist_params
    (Some expected) batch supp (Some shape) size = Ok (rv', warnings) ->
  ndim rv' = expected.
Proof.
  intros Hno. unfold maybe_resize. simpl.
  case_bool_decide as Hexp; simpl.
  - intros [= <- _]. congruence.
  - unfold resize_for_shape. rewrite bool_decide_eq_false_2 by done.
    case_bool_decide as Hrank; simpl.
    + by intros [= <- _].
    + destruct batch; simpl; discriminate.
Qed.

(** Resizing with [expand=True] puts the new dimensions in front of the
    ones the variable has. *)
Hypothesis change_rv_size_ndim : forall rv new_size,
  ndim (change_rv_size rv new_size) = ndim rv + Z.of_nat (length new_size).

(** X17: for a [shape] without ellipsis whose length is the expected rank
    (as [find_size] sets it) and a variable of another rank, the variable
    is recreated from its parameters alone. If the recreated variable has
    at most [len(shape)] dimensions it is expanded by the leading entries
    of [shape] and returned with rank [len(shape)]; if it has more, a
    [ShapeError] is raised. *)
Theorem maybe_resize_recreate (rv_out : RV) (dist_params : Params)
    (batch supp : Z) (shape : list shape_elem) (size : option (list shape_elem)) :
  SEllipsis ∉ shape ->
  ndim rv_out <> Z.of_nat (length shape) ->
  0 <= ndim (rv_op dist_params) ->
  let implied := ndim (rv_op dist_params) in
  let expected := Z.of_nat (length shape) in
  maybe_resize ndim change_rv_size rv_op rv_out dist_params
    (Some expected) (Some batch) supp (Some shape) size
  = if implied <=? expected then
      Ok (if implied <? expected
          then change_rv_size (rv_op dist_params)
                 (take (Z.to_nat (expected - implied)) shape)
          else rv_op dist_params,
          match size with
          | Some size => [ShapeWarning (Z.of_nat (length size)) supp (ndim rv_out)]
          | None => []
          end)
    else Raise (ShapeError (ndim rv_out) (Some (batch + supp))).
Proof.
  intros Hno Hne Himplied implied expected. unfold maybe_resize.
  rewrite bool_decide_eq_false_2 by (intros [= H]; by apply Hne). simpl.
  unfold resize_for_shape. rewrite bool_decide_eq_false_2 by done.
  fold implied. fold expected.
  destruct (Z.ltb_spec implied expected) as [Hlt|Hge].
  - rewrite slice_to_nonneg by lia.
    rewrite bool_decide_eq_true_2.
    + destruct (Z.leb_spec implied expected); [| lia]. by destruct size.
    + rewrite change_rv_size_ndim, length_take. fold implied.
      subst expected. lia.
  - destruct (Z.leb_spec implied expected) as [Hle|Hgt].
    + rewrite bool_decide_eq_true_2 by (fold implied; lia). by destruct size.
    + rewrite bool_decide_eq_false_2 by (fold implied; lia). done.
Qed.

(** X18: for a [shape] that contains an ellipsis, with no expected rank
    (as [find_size] leaves it), the variable is always resized by the
    entries of [shape] before its last one, nothing is raised, and the
    rank grows by [len(shape) - 1]. *)
Theorem maybe_resize_ellipsis (rv_out : RV) (dist_params : Params)
    (batch : option Z) (supp : Z) (shape : list shape_elem) :
  SEllipsis ∈ shape ->
  exists rv',
    maybe_resize ndim change_rv_size rv_op rv_out dist_params
      None batch supp (Some shape) None = Ok (rv', [])
    /\ rv' = change_rv_size rv_out (take (length shape - 1) shape)
    /\ ndim rv' = ndim rv_out + Z.of_nat (length shape) - 1.
Proof.
  intros Hin. eexists. split; [| split; [reflexivity |]].
  - unfold maybe_resize. simpl. unfold resize_for_shape.
    rewrite bool_decide_eq_true_2 by done. simpl.
    by rewrite slice_to_minus_one.
  - rewrite change_rv_size_ndim, length_take.
    apply list_elem_of_lookup in Hin as [i Hi]. apply lookup_lt_Some in Hi. lia.
Qed.
End MaybeResizeShape.

Lemma shape_rv_resize_ndim (rv : list Z) (new_size : list shape_elem) :
  shape_rv_ndim (shape_rv_resize rv new_size)
  = shape_rv_ndim rv + Z.of_nat (length new_size).
Proof.
  unfold shape_rv_ndim, shape_rv_resize. rewrite length_app, length_fmap. lia.
Qed.

Lemma no_ellipsis_example : SEllipsis ∉ [SInt 4; SInt 2; SInt 6].
Proof.
  intros Hin. repeat (apply elem_of_cons in Hin as [Hin|Hin]; [discriminate |]).
  by apply elem_of_nil in Hin.
Qed.

Lemma maybe_resize_rank_witness : shape_rv_ndim [4; 2; 6] = 3.
Proof.
  apply (maybe_resize_rank shape_rv_ndim shape_rv_resize (fun _ : unit => [6])
           [1; 1; 4; 2; 6] tt 3 (Some 2) 1 [SInt 4; SInt 2; SInt 6] None
           [4; 2; 6] []).
  - exact no_ellipsis_example.
  - reflexivity.
Defined.

Lemma maybe_resize_recreate_witness :
  maybe_resize shape_rv_ndim shape_rv_resize (fun _ : unit => [6])
    [1; 1; 4; 2; 6] tt (Some 3) (Some 2) 1 (Some [SInt 4; SInt 2; SInt 6]) None
  = Ok ([4; 2; 6], []).
Proof.
  apply (maybe_resize_recreate shape_rv_ndim shape_rv_resize
           (fun _ : unit => [6]) shape_rv_resize_ndim
           [1; 1; 4; 2; 6] tt 2 1 [SInt 4; SInt 2; SInt 6] None).
  - exact no_ellipsis_example.
  - discriminate.
  - unfold shape_rv_ndim. simpl. lia.
Defined.

Lemma maybe_resize_ellipsis_witness :
  exists rv',
    maybe_resize shape_rv_ndim shape_rv_resize (fun _ : unit => [6])
      [6] tt None None 0 (Some [SInt 4; SEllipsis]) None = Ok (rv', [])
    /\ rv' = shape_rv_resize [6] (take (length [SInt 4; SEllipsis] - 1)
                                    [SInt 4; SEllipsis])
    /\ shape_rv_ndim rv'
       = shape_rv_ndim [6] + Z.of_nat (length [SInt 4; SEllipsis]) - 1.
Proof.
  apply (maybe_resize_ellipsis shape_rv_ndim shape_rv_resize
           (fun _ : unit => [6]) shape_rv_resize_ndim
           [6] tt None 0 [SInt 4; SEllipsis]).
  apply elem_of_cons; right. by left.
Defined.

(** ** A returned shape is the NumPy broadcast *)

Lemma bcast_dim_nonzero (a b : Z) :
  bcast_dim a b <> 0 -> a = 1 \/ b = 1 \/ a = b.
Proof.
  unfold bcast_dim.
  destruct (Z.eqb_spec a 1), (Z.eqb_spec b 1), (Z.eqb_spec a b); auto.
  by intros [].
Qed.

Lemma np_compatible_step_nonzero (x y : list Z) (rest : list (list Z)) :
  all_nonzero (bcast_step x y) = true ->
  np_compatible (x :: y :: rest) = np_compatible (bcast_step x y :: rest).
Proof.
  intros Hnz. unfold np_compatible. rewrite np_rank_step.
  apply forallb_pointwise. intros k.
  rewrite !dims_at_cons, dim_from_end_bcast_step.
  destruct (dim_from_end x k) as [a|] eqn:Ha, (dim_from_end y k) as [b|] eqn:Hb;
    try done.
  apply column_agree, bcast_dim_nonzero. intros H0.
  apply all_nonzero_spec in Hnz. apply Hnz, (dim_from_end_elem _ k).
  by rewrite dim_from_end_bcast_step, Ha, Hb, H0.
Qed.

Lemma np_compatible_single (x : list Z) : np_compatible [x] = true.
Proof.
  apply np_compatible_spec. intros k _. rewrite dims_at_cons.
  unfold dims_at. simpl.
  destruct (dim_from_end x k) as [a|]; [| done].
  unfold compatible_at. rewrite non1_cons. by destruct (decide (a = 1)).
Qed.

Lemma bcast_fold_sound (ys : list (list Z)) (x r : list Z) :
  bcast_fold x ys = Some r ->
  np_compatible (x :: ys) = true /\ r = np_broadcast (x :: ys).
Proof.
  revert x. induction ys as [|y ys IH]; intros x; simpl.
  - intros [= <-]. by rewrite np_compatible_single, np_broadcast_single.
  - destruct (all_nonzero (bcast_step x y)) eqn:Hnz; [| discriminate].
    intros [Hc ->]%IH.
    rewrite <- (np_compatible_step_nonzero x y ys Hnz) in Hc.
    split; [done |]. by apply np_compatible_step.
Qed.

Lemma bcast_loop_checked (flag : bool) (args : list (list raw_entry))
    (x r : list Z) :
  bcast_loop flag x args = Ok (Some r) ->
  exists ys, mapM _check_shape_type args = Ok ys /\ bcast_fold x ys = Some r.
Proof.
  revert x. induction args as [|arg args IH]; intros x; simpl.
  - intros [= <-]. by exists [].
  - destruct (_check_shape_type arg) as [y|e]; simpl; [| done].
    destruct (all_nonzero (bcast_step x y)) eqn:Hnz; [| by destruct flag].
    intros (ys & -> & Hfold)%IH. exists (y :: ys). simpl. by rewrite Hnz.
Qed.

Lemma shapes_broadcasting_checked (flag : bool) (args : list (list raw_entry))
    (r : list Z) :
  shapes_broadcasting args flag = Ok (Some r) ->
  exists shapes, mapM _check_shape_type args = Ok shapes
    /\ np_compatible shapes = true /\ r = np_broadcast shapes.
Proof.
  destruct args as [|arg0 args]; simpl.
  - intros [= <-]. by exists [].
  - destruct (_check_shape_type arg0) as [x|e]; simpl; [| done].
    intros (ys & -> & Hfold)%bcast_loop_checked.
    exists (x :: ys). split; [done |]. by apply bcast_fold_sound.
Qed.

(** X19: a shape that [shapes_broadcasting] returns for shapes of
    arrays is right: the shapes are NumPy-compatible and the result is
    their NumPy broadcast. (It may fail on compatible shapes, those with
    a zero dimension, but it never returns a wrong shape.) *)
Theorem shapes_broadcasting_sound (shapes : list (list Z)) (flag : bool)
    (r : list Z) :
  forallb array_shape shapes = true ->
  shapes_broadcasting (ints <$> shapes) flag = Ok (Some r) ->
  np_compatible shapes = true /\ r = np_broadcast shapes.
Proof.
  intros _ (shapes' & Hcheck & Hc & ->)%shapes_broadcasting_checked.
  rewrite mapM_check_ints in Hcheck. by injection Hcheck as <-.
Qed.

Lemma shapes_broadcasting_sound_witness :
  np_compatible [[0; 3]] = true /\ [0; 3] = np_broadcast [[0; 3]].
Proof.
  apply (shapes_broadcasting_sound [[0; 3]] false [0; 3]); reflexivity.
Defined.

(** ** [resize_from_observed] *)

Lemma shape_items_seq {L} (shape : list L) (m i : nat) :
  (i <= length shape)%nat ->
  outcome_mapM (shape_item shape) (seq i m)
  = if (i + m <=? length shape)%nat
    then Done (take m (drop i shape)) else Failed IndexError.
Proof.
  revert i. induction m as [|m IH]; intros i Hi.
  - simpl. destruct (Nat.leb_spec (i + 0) (length shape)); [done | lia].
  - simpl. unfold shape_item at 1.
    destruct (shape !! i) as [x|] eqn:Hx; simpl.
    + pose proof (lookup_lt_Some _ _ _ Hx) as Hlt.
      rewrite IH by lia.
      destruct (Nat.leb_spec (S i + m) (length shape)),
               (Nat.leb_spec (i + S m) (length shape)); try lia; [| done].
      simpl. by rewrite (drop_S _ _ _ Hx).
    + apply lookup_ge_None in Hx.
      destruct (Nat.leb_spec (i + S m) (length shape)); [lia | done].
Qed.

(** X20: [resize_from_observed] returns the leading
    [ndim - ndim_implied] dimensions of the observed data, and none when
    at least [ndim] dimensions are implied (a negative count selects
    nothing); it fails, with an [IndexError], exactly when [ndim_implied]
    is negative. *)
Theorem resize_from_observed_spec {L} (observed : list L) (ndim_implied : Z) :
  resize_from_observed observed ndim_implied
  = let ndim_resize := Z.of_nat (length observed) - ndim_implied in
    if 0 <=? ndim_implied
    then Done (ndim_resize, take (Z.to_nat ndim_resize) observed, observed)
    else Failed IndexError.
Proof.
  unfold resize_from_observed. cbv zeta.
  rewrite shape_items_seq by lia. simpl. rewrite drop_0.
  destruct (Z.leb_spec 0 ndim_implied),
    (Nat.leb_spec (Z.to_nat (Z.of_nat (length observed) - ndim_implied))
       (length observed)); try lia; done.
Qed.

(** ** The views of [get_broadcastable_dist_samples] *)

Lemma index_shape_full (s : list Z) :
  index_shape (replicate (length s) FullSlice) s = Done s.
Proof. induction s as [|d s IH]; simpl; [done | by rewrite IH]. Qed.

Lemma index_shape_new_axes (k : nat) (s : list Z) :
  index_shape (replicate k NewAxis ++ replicate (length s) FullSlice) s
  = Done (replicate k 1 ++ s).
Proof.
  induction k as [|k IH]; simpl; [apply index_shape_full | by rewrite IH].
Qed.

Lemma index_shape_insert (h t : list Z) (k : nat) :
  index_shape (replicate (length h) FullSlice
               ++ replicate k NewAxis ++ replicate (length t) FullSlice)
    (h ++ t)
  = Done (h ++ replicate k 1 ++ t).
Proof.
  induction h as [|d h IH]; simpl; [apply index_shape_new_axes | by rewrite IH].
Qed.

Lemma strip_size_not_prefixed (sz s : list Z) :
  has_size_prefix sz s = false -> strip_size sz s = s.
Proof. intros H. unfold strip_size. by rewrite H. Qed.

Lemma strip_size_length (sz s : list Z) (b : list Z) :
  (length (strip_size sz s) <= length b)%nat ->
  Z.to_nat (Z.of_nat (length b) - Z.of_nat (length (strip_size sz s)))
  = (length b - length (strip_size sz s))%nat.
Proof. lia. Qed.

(** The slicer built for a sample is always a valid index of it, and the
    view has the shape that [broadcast_dist_samples_shape] pads to. *)
Lemma view_shape (sz b p : list Z) :
  index_shape (sample_slicer sz b p (strip_size sz p)) p
  = Done (pad_shape sz b p (strip_size sz p)).
Proof.
  unfold sample_slicer, pad_shape. rewrite <- has_size_prefix_starts.
  destruct (has_size_prefix sz p) eqn:Hpre.
  - pose proof Hpre as Hs. rewrite has_size_prefix_starts in Hs.
    apply starts_with_size_split in Hs.
    assert (Htake : take (length sz) p = sz).
    { rewrite Hs at 1. by rewrite take_app_length. }
    assert (Hdrop : slice_from p (length sz) = strip_size sz p).
    { unfold strip_size. by rewrite Hpre. }
    rewrite Htake, Hdrop. clear Htake Hdrop Hpre.
    set (sp := strip_size sz p) in *. clearbody sp. subst p.
    apply index_shape_insert.
  - rewrite strip_size_not_prefixed by done. simpl. apply index_shape_full.
Qed.

Lemma zip3_with_samples {A B C} (f : A -> A -> B -> C) (g : A -> B)
    (l : list A) (m : A) :
  zip3_with f l (l ++ [m]) (g <$> (l ++ [m])) = (fun a => f a a (g a)) <$> l.
Proof. induction l as [|a l IH]; [done | simpl; f_equal; exact IH]. Qed.

Lemma outcome_mapM_done {A B} (h : A -> B) (f : A -> outcome B) (l : list A) :
  (forall a, f a = Done (h a)) ->
  outcome_mapM (fun v => v) (f <$> l) = Done (h <$> l).
Proof.
  intros Hf. induction l as [|a l IH]; [done |].
  rewrite !fmap_cons. simpl. rewrite Hf. simpl. by rewrite IH.
Qed.

(** Runs the body of [broadcast_dist_samples_shape] for a given [size]. *)
Local Ltac run_sized_body :=
  unfold broadcast_dist_samples_shape;
  rewrite mapM_check_ints; cbn [bind]; cbv zeta;
  change (map ints (map ?f ?l)) with (ints <$> (f <$> l));
  change (map (strip_size ?sz) ?l) with (strip_size sz <$> l).

(** The shapes [broadcast_dist_samples_shape] builds on the way: the
    broadcast of the stripped shapes, and the padded shapes whose
    broadcast it returns. *)
Lemma broadcast_dist_samples_shape_steps (size : size_arg)
    (shapes : list (list Z)) (out : list Z) :
  broadcast_dist_samples_shape (ints <$> shapes) size = Ok out ->
  exists b,
    shapes_broadcasting (ints <$> (strip_size (to_tuple size) <$> shapes)) true
      = Ok (Some b)
    /\ shapes_broadcasting
         (ints <$> ((fun s => pad_shape (to_tuple size) b s
                                (strip_size (to_tuple size) s)) <$> shapes)) true
       = Ok (Some out).
Proof.
  destruct size as [|n|sz].
  - rewrite broadcast_dist_samples_shape_unsized. simpl.
    rewrite strip_size_fmap_nil.
    destruct (shapes_broadcasting (ints <$> shapes) false) as [[r|]|e] eqn:Hr;
      try discriminate.
    intros [= ->]. exists out.
    assert (Hstrict : shapes_broadcasting (ints <$> shapes) true = Ok (Some out)).
    { by rewrite shapes_broadcasting_strict_of_lenient, Hr. }
    split; [done |].
    destruct shapes as [|x ys]; [by injection Hr as <- |].
    rewrite shapes_broadcasting_ints in Hstrict.
    destruct (bcast_fold x ys) as [r'|] eqn:Hfold; [| discriminate].
    injection Hstrict as ->.
    rewrite fmap_cons, shapes_broadcasting_ints, pad_shape_behind.
    rewrite <- (strip_size_fmap_nil ys) in Hfold. rewrite strip_size_nil.
    rewrite (bcast_fold_behind [] out ys _ x eq_refl Hfold).
    by destruct (_ || _); simpl; rewrite ?padded_full.
  - run_sized_body.
    destruct (shapes_broadcasting _ true) as [[b|]|[]] eqn:Hb; try discriminate.
    rewrite zip_map_fmap. change (map ints ?l) with (ints <$> l).
    intros Hout. exists b. split; [done |]. revert Hout.
    match goal with
    | |- context [bind ?call _] => destruct call as [[r|]|e]
    end; try discriminate.
    simpl. by intros [= ->].
  - run_sized_body.
    destruct (shapes_broadcasting _ true) as [[b|]|[]] eqn:Hb; try discriminate.
    rewrite zip_map_fmap. change (map ints ?l) with (ints <$> l).
    intros Hout. exists b. split; [done |]. revert Hout.
    match goal with
    | |- context [bind ?call _] => destruct call as [[r|]|e]
    end; try discriminate.
    simpl. by intros [= ->].
Qed.

Lemma mapM_Ok_inj {A B} (f : A -> result B) (l : list A) (o1 o2 : list B) :
  mapM f l = Ok o1 -> mapM f l = Ok o2 -> o1 = o2.
Proof. congruence. Qed.

Lemma shapes_broadcasting_ints_sound (shapes : list (list Z)) (flag : bool)
    (r : list Z) :
  shapes_broadcasting (ints <$> shapes) flag = Ok (Some r) ->
  np_compatible shapes = true /\ r = np_broadcast shapes.
Proof.
  intros (shapes' & Hcheck & Hc & ->)%shapes_broadcasting_checked.
  rewrite mapM_check_ints in Hcheck. by injection Hcheck as <-.
Qed.

(** What the function does in terms of [broadcast_dist_samples_shape]. *)
Lemma get_broadcastable_dist_samples_run (samples : list (list Z))
    (size must_bcast_with : size_arg) (flag : bool) :
  let sz := to_tuple size in
  let p_shapes := samples ++ [to_tuple must_bcast_with] in
  match broadcast_dist_samples_shape (ints <$> p_shapes) size with
  | Raise e =>
      get_broadcastable_dist_samples samples size must_bcast_with flag
      = Failed (ModuleError e)
  | Ok out =>
      exists b,
        shapes_broadcasting (ints <$> (strip_size sz <$> p_shapes)) true
          = Ok (Some b)
        /\ shapes_broadcasting
             (ints <$> ((fun s => pad_shape sz b s (strip_size sz s))
                          <$> p_shapes)) true
           = Ok (Some out)
        /\ get_broadcastable_dist_samples samples size must_bcast_with flag
           = Done ((fun s => pad_shape sz b s (strip_size sz s)) <$> samples,
                   if flag then Some out else None)
  end.
Proof.
  intros sz p_shapes. unfold get_broadcastable_dist_samples.
  rewrite check_shape_type_ints. cbn [lift outcome_bind]. cbv zeta.
  fold p_shapes. fold sz.
  destruct (broadcast_dist_samples_shape (ints <$> p_shapes) size)
    as [out|e] eqn:Hout; [| done].
  destruct (broadcast_dist_samples_shape_steps _ _ _ Hout) as (b & Hb & Hpad).
  exists b. split; [done |]. split; [done |].
  cbn [lift outcome_bind]. fold sz in Hb. rewrite Hb. cbn [lift outcome_bind].
  subst p_shapes. rewrite zip3_with_samples.
  rewrite (outcome_mapM_done (fun s => pad_shape sz b s (strip_size sz s)));
    [done |].
  intros s. apply view_shape.
Qed.

(** X21: [get_broadcastable_dist_samples] fails exactly when
    [broadcast_dist_samples_shape] fails on the sample shapes followed by
    [must_bcast_with], with the same exception: the slicers it builds are
    always valid indices. Otherwise it returns one view per sample: a
    sample that [size] prepends gets ones between the prefix and the rest
    of its shape, up to the rank of the broadcast of the stripped shapes;
    any other sample keeps its shape. *)
Theorem get_broadcastable_dist_samples_views (samples : list (list Z))
    (size must_bcast_with : size_arg) (flag : bool) :
  let sz := to_tuple size in
  let p_shapes := samples ++ [to_tuple must_bcast_with] in
  match get_broadcastable_dist_samples samples size must_bcast_with flag with
  | Failed e =>
      exists e', e = ModuleError e'
        /\ broadcast_dist_samples_shape (ints <$> p_shapes) size = Raise e'
  | Done (views, out_shape) =>
      exists b out,
        shapes_broadcasting (ints <$> (strip_size sz <$> p_shapes)) true
          = Ok (Some b)
        /\ broadcast_dist_samples_shape (ints <$> p_shapes) size = Ok out
        /\ out_shape = (if flag then Some out else None)
        /\ views
           = (fun s => if has_size_prefix sz s
                       then sz ++ replicate (length b - length (strip_size sz s)) 1
                               ++ strip_size sz s
                       else s) <$> samples
  end.
Proof.
  intros sz p_shapes.
  pose proof (get_broadcastable_dist_samples_run samples size must_bcast_with flag)
    as Hrun. cbv zeta in Hrun. fold sz in Hrun. fold p_shapes in Hrun.
  destruct (broadcast_dist_samples_shape (ints <$> p_shapes) size) as [out|e].
  - destruct Hrun as (b & Hb & _ & ->). exists b, out.
    split; [done |]. split; [done |]. split; [done |].
    apply list_fmap_ext. intros _ s _.
    rewrite pad_shape_behind. unfold behind, padded.
    destruct (has_size_prefix sz s) eqn:Hpre; [done |].
    by apply strip_size_not_prefixed.
  - rewrite Hrun. by exists e.
Qed.

(** ** Broadcasting the views *)

Lemma np_broadcast_length (shapes : list (list Z)) :
  length (np_broadcast shapes) = np_rank shapes.
Proof.
  unfold np_broadcast. by rewrite length_reverse, length_fmap, length_seq.
Qed.

Lemma dim_from_end_np_broadcast (shapes : list (list Z)) (k : nat) :
  (k < np_rank shapes)%nat ->
  dim_from_end (np_broadcast shapes) k = Some (max_non1 (dims_at shapes k)).
Proof.
  intros Hk. unfold dim_from_end, np_broadcast.
  rewrite reverse_involutive, list_lookup_fmap, lookup_seq_lt by done. done.
Qed.

Lemma np_rank_elem (shapes : list (list Z)) (v : list Z) :
  v ∈ shapes -> (length v <= np_rank shapes)%nat.
Proof.
  induction shapes as [|s shapes IH]; intros Hv; [by apply elem_of_nil in Hv |].
  rewrite np_rank_cons. apply elem_of_cons in Hv as [-> | Hv]; [lia |].
  apply IH in Hv. lia.
Qed.

Lemma dims_at_elem (shapes : list (list Z)) (v : list Z) (k : nat) (d : Z) :
  v ∈ shapes -> dim_from_end v k = Some d -> d ∈ dims_at shapes k.
Proof. intros Hv Hd. apply list_elem_of_omap. eauto. Qed.

(** Each of several compatible shapes can be stretched to their broadcast. *)
Lemma can_broadcast_to_np_broadcast (shapes : list (list Z)) (v : list Z) :
  np_compatible shapes = true -> v ∈ shapes ->
  can_broadcast_to v (np_broadcast shapes) = true.
Proof.
  intros Hc Hv. unfold can_broadcast_to. apply andb_true_iff. split.
  - apply Nat.leb_le. rewrite np_broadcast_length. by apply np_rank_elem.
  - apply forallb_forall. intros k [_ Hk]%in_seq. simpl in Hk.
    pose proof (np_rank_elem _ _ Hv) as Hrank.
    rewrite dim_from_end_np_broadcast by lia.
    destruct (dim_from_end v k) as [d|] eqn:Hd; [| done].
    destruct (Z.eqb_spec d 1) as [|Hd1]; [done |]. simpl. apply Z.eqb_eq.
    symmetry. apply max_non1_agree; [| by eapply dims_at_elem | done].
    apply np_compatible_spec; [done | lia].
Qed.

Lemma outcome_mapM_broadcast_to (views : list (list Z)) (out : list Z) :
  all_nonneg out = true ->
  Forall (fun v => can_broadcast_to v out = true) views ->
  outcome_mapM (fun o => np_broadcast_to o out) views
  = Done (replicate (length views) out).
Proof.
  intros Hout. induction 1 as [|v views Hv _ IH]; [done |].
  simpl. unfold np_broadcast_to at 1. rewrite Hout, Hv. simpl. by rewrite IH.
Qed.

Lemma all_nonneg_spec (s : list Z) :
  all_nonneg s = true <-> forall d, d ∈ s -> 0 <= d.
Proof.
  unfold all_nonneg. rewrite forallb_forall. split.
  - intros Hall d Hin%list_elem_of_In. apply Hall in Hin. lia.
  - intros Hall d Hin%list_elem_of_In. apply Hall in Hin. lia.
Qed.

Lemma shapes_broadcasting_ints_dims (shapes : list (list Z)) (flag : bool)
    (r : list Z) (d : Z) :
  shapes_broadcasting (ints <$> shapes) flag = Ok (Some r) ->
  d ∈ r -> exists s, s ∈ shapes /\ d ∈ s.
Proof.
  destruct shapes as [|x ys].
  - intros [= <-] Hd. by apply elem_of_nil in Hd.
  - rewrite fmap_cons. simpl. rewrite check_shape_type_ints. simpl.
    intros (ys' & Hcheck & _ & _ & Hdims)%bcast_loop_result Hd.
    rewrite mapM_check_ints in Hcheck. injection Hcheck as <-. by apply Hdims.
Qed.

(** The dimensions of a padded shape are those of the shape, and ones. *)
Lemma pad_shape_dims (sz b s : list Z) (d : Z) :
  d ∈ pad_shape sz b s (strip_size sz s) -> d ∈ s \/ d = 1.
Proof.
  rewrite pad_shape_behind. unfold behind.
  destruct (has_size_prefix sz s) eqn:Hpre.
  - rewrite has_size_prefix_starts in Hpre.
    apply starts_with_size_split in Hpre. unfold padded.
    rewrite !elem_of_app, elem_of_replicate. rewrite Hpre at 3.
    rewrite elem_of_app. tauto.
  - rewrite strip_size_not_prefixed by done. auto.
Qed.

(** X22: for sample shapes and a [to_shape] without negative entries,
    [broadcast_dist_samples_to] succeeds exactly when
    [broadcast_dist_samples_shape] does on the sample shapes followed by
    [to_shape], and then every returned array has the shape it computes:
    NumPy never refuses to broadcast a view. A failure is the exception
    of [broadcast_dist_samples_shape]. *)
Theorem broadcast_dist_samples_to_spec (to_shape : size_arg)
    (samples : list (list Z)) (size : size_arg) :
  forallb all_nonneg samples = true ->
  all_nonneg (to_tuple to_shape) = true ->
  broadcast_dist_samples_to to_shape samples size
  = match broadcast_dist_samples_shape
            (ints <$> (samples ++ [to_tuple to_shape])) size with
    | Ok out => Done (replicate (length samples) out)
    | Raise e => Failed (ModuleError e)
    end.
Proof.
  intros Hsamples Hto. unfold broadcast_dist_samples_to.
  pose proof (get_broadcastable_dist_samples_run samples size to_shape true)
    as Hrun. cbv zeta in Hrun.
  destruct (broadcast_dist_samples_shape _ size) as [out|e]; [| by rewrite Hrun].
  destruct Hrun as (b & _ & Hpad & ->). simpl.
  assert (Hout : all_nonneg out = true).
  { apply all_nonneg_spec. intros d Hd.
    destruct (shapes_broadcasting_ints_dims _ _ _ _ Hpad Hd) as (p & Hp & Hdp).
    apply list_elem_of_fmap in Hp as (s & -> & Hs).
    apply pad_shape_dims in Hdp as [Hds | ->]; [| lia].
    apply elem_of_app in Hs as [Hs | ->%list_elem_of_singleton].
    - rewrite forallb_forall in Hsamples.
      apply list_elem_of_In, Hsamples in Hs.
      rewrite all_nonneg_spec in Hs. by apply Hs.
    - rewrite all_nonneg_spec in Hto. by apply Hto. }
  apply shapes_broadcasting_ints_sound in Hpad as [Hc ->].
  rewrite outcome_mapM_broadcast_to; [by rewrite length_fmap | done |].
  apply Forall_fmap, Forall_forall. intros s Hs. simpl.
  apply can_broadcast_to_np_broadcast; [done |].
  apply (list_elem_of_fmap_2
           (fun p => pad_shape (to_tuple size) b p (strip_size (to_tuple size) p))).
  apply elem_of_app. by left.
Qed.

Lemma broadcast_dist_samples_to_spec_witness :
  broadcast_dist_samples_to (SizeSeq [3; 1; 5]) [[100]; [5]; [4; 5]] (SizeInt 100)
  = Done (replicate 3 [100; 3; 4; 5]).
Proof.
  apply (broadcast_dist_samples_to_spec (SizeSeq [3; 1; 5])
           [[100]; [5]; [4; 5]] (SizeInt 100)); reflexivity.
Defined.

Lemma dims_at_app (l1 l2 : list (list Z)) (k : nat) :
  dims_at (l1 ++ l2) k = dims_at l1 k ++ dims_at l2 k.
Proof. unfold dims_at. apply omap_app. Qed.

Lemma np_rank_app (l1 l2 : list (list Z)) :
  np_rank (l1 ++ l2) = (np_rank l1 `max` np_rank l2)%nat.
Proof.
  induction l1 as [|s l1 IH]; [done |].
  change ((s :: l1) ++ l2) with (s :: (l1 ++ l2)).
  rewrite !np_rank_cons, IH. lia.
Qed.

Lemma np_compatible_app_l (l1 l2 : list (list Z)) :
  np_compatible (l1 ++ l2) = true -> np_compatible l1 = true.
Proof.
  rewrite !np_compatible_spec. intros Hc k Hk.
  assert (Hk' : (k < np_rank (l1 ++ l2))%nat) by (rewrite np_rank_app; lia).
  specialize (Hc k Hk'). rewrite dims_at_app in Hc.
  rewrite compatible_at_spec in *. intros a b Ha Hb.
  apply Hc; apply elem_of_app; by left.
Qed.

Lemma non1_app (a b : list Z) : non1 (a ++ b) = non1 a ++ non1 b.
Proof. unfold non1. apply filter_app. Qed.

Lemma non1_ones (b : list Z) : (forall d, d ∈ b -> d = 1) -> non1 b = [].
Proof.
  intros Hall. destruct (non1 b) as [|d ds] eqn:Hn; [done |].
  assert (Hd : d ∈ non1 b) by (rewrite Hn; by left).
  apply non1_elem in Hd as [Hd Hd1]. by apply Hall in Hd.
Qed.

Lemma max_non1_app_ones (a b : list Z) :
  (forall d, d ∈ b -> d = 1) -> max_non1 (a ++ b) = max_non1 a.
Proof.
  intros Hall. unfold max_non1. by rewrite non1_app, (non1_ones b), app_nil_r.
Qed.

(** A further shape of ones, of no larger rank, does not change the
    broadcast. *)
Lemma np_broadcast_app_ones (shapes : list (list Z)) (ones : list Z) :
  (forall d, d ∈ ones -> d = 1) ->
  (length ones <= np_rank shapes)%nat ->
  np_broadcast (shapes ++ [ones]) = np_broadcast shapes.
Proof.
  intros Hall Hlen. unfold np_broadcast.
  rewrite np_rank_app, np_rank_cons.
  replace (np_rank shapes `max` (length ones `max` np_rank []))%nat
    with (np_rank shapes) by (change (np_rank []) with 0%nat; lia).
  f_equal. apply list_fmap_ext. intros _ k _.
  rewrite dims_at_app. apply max_non1_app_ones.
  intros d Hd. apply list_elem_of_omap in Hd as (s & Hs & Hd).
  apply list_elem_of_singleton in Hs as ->.
  apply Hall. by apply (dim_from_end_elem _ k).
Qed.

Lemma strip_size_empty (sz : list Z) : strip_size sz [] = [].
Proof.
  unfold strip_size, slice_from.
  destruct (has_size_prefix sz []); [apply drop_nil | done].
Qed.

Lemma has_size_prefix_empty (sz : list Z) :
  has_size_prefix sz [] = true -> sz = [].
Proof.
  unfold has_size_prefix. intros H. apply bool_decide_eq_true in H.
  rewrite H. apply take_nil.
Qed.

Lemma fmap_const_replicate {A B} (y : B) (l : list A) :
  (fun _ => y) <$> l = replicate (length l) y.
Proof. induction l as [|a l IH]; [done | simpl; f_equal; exact IH]. Qed.

(** X23: [broadcast_distribution_samples] succeeds exactly when
    [broadcast_dist_samples_shape] does on the sample shapes followed by
    the scalar shape, and then every returned array has the shape it
    computes: the views are always compatible for NumPy and broadcast to
    that shape. A failure is the exception of
    [broadcast_dist_samples_shape]. *)
Theorem broadcast_distribution_samples_spec (samples : list (list Z))
    (size : size_arg) :
  broadcast_distribution_samples samples size
  = match broadcast_dist_samples_shape (ints <$> (samples ++ [[]])) size with
    | Ok out => Done (replicate (length samples) out)
    | Raise e => Failed (ModuleError e)
    end.
Proof.
  unfold broadcast_distribution_samples.
  pose proof (get_broadcastable_dist_samples_run samples size SizeNone false)
    as Hrun. cbv zeta in Hrun. simpl (to_tuple SizeNone) in Hrun.
  destruct (broadcast_dist_samples_shape _ size) as [out|e]; [| by rewrite Hrun].
  destruct Hrun as (b & _ & Hpad & ->). simpl.
  apply shapes_broadcasting_ints_sound in Hpad as [Hc ->].
  rewrite fmap_app in Hc |- *. simpl in Hc |- *.
  set (sz := to_tuple size) in *.
  set (views := (fun s => pad_shape sz b s (strip_size sz s)) <$> samples) in *.
  unfold np_broadcast_arrays. rewrite (np_compatible_app_l _ _ Hc).
  rewrite fmap_const_replicate. subst views. rewrite length_fmap. f_equal.
  destruct samples as [|s samples]; [done |].
  f_equal. symmetry.
  rewrite pad_shape_behind, strip_size_empty in Hc |- *.
  destruct (has_size_prefix sz []) eqn:Hpre; unfold behind.
  - apply has_size_prefix_empty in Hpre. rewrite Hpre in *.
    apply np_broadcast_app_ones.
    + unfold padded. rewrite app_nil_r, app_nil_l.
      by intros d [-> _]%elem_of_replicate.
    + rewrite fmap_cons, np_rank_cons, pad_shape_behind, strip_size_nil.
      unfold behind, padded. rewrite has_size_prefix_starts.
      unfold starts_with_size. rewrite bool_decide_eq_true_2 by done.
      rewrite !length_app, !length_replicate. simpl. lia.
  - apply np_broadcast_app_ones; [by intros d ?%elem_of_nil | simpl; lia].
Qed.
